(** * The understanding layer of [routes.py]

    A shallow embedding of the decision logic of [src/routes.py]: the
    product-catalog loader, transcript normalisation, product resolution,
    intent detection, retrieval-query construction and fallback selection.

    Python [str] values are modelled by [string]: characters are the 8-bit
    [ascii] type and the [str] methods are modelled as they act on ASCII text
    (code points below 128); a byte above 127 is a caseless character that is
    not whitespace.  Ordered dictionaries whose iteration order the code
    depends on ([intent_keywords], [product_normalization]) are association
    lists in insertion order; dictionaries that are only looked up
    ([fallbacks], [product_map]) are [gmap]s; the [set] of seen keys is a
    [gset]. *)

From Stdlib Require Import Ascii String NArith ZArith Lia List Bool.
From stdpp Require Import gmap strings list fin_maps.

(** ** Python string primitives *)

Module Py.

(** [c.isspace()] for an ASCII character: TAB..CR, FS..US and the space. *)
Definition is_space (c : ascii) : bool :=
  let n := N_of_ascii c in
  ((9 <=? n) && (n <=? 13) || (28 <=? n) && (n <=? 32))%N.

Definition is_upper (c : ascii) : bool :=
  let n := N_of_ascii c in ((65 <=? n) && (n <=? 90))%N.

Definition is_lower (c : ascii) : bool :=
  let n := N_of_ascii c in ((97 <=? n) && (n <=? 122))%N.

Definition lower_char (c : ascii) : ascii :=
  if is_upper c then ascii_of_N (N_of_ascii c + 32) else c.

Definition upper_char (c : ascii) : ascii :=
  if is_lower c then ascii_of_N (N_of_ascii c - 32) else c.

(** [s.lower()] *)
Fixpoint lower (s : string) : string :=
  match s with
  | EmptyString => EmptyString
  | String c s' => String (lower_char c) (lower s')
  end.

(** [s.title()]: a cased character is upper-cased when the character before
    it is not cased, and lower-cased otherwise. *)
Fixpoint title_from (prev_cased : bool) (s : string) : string :=
  match s with
  | EmptyString => EmptyString
  | String c s' =>
      if is_lower c then
        String (if prev_cased then c else upper_char c) (title_from true s')
      else if is_upper c then
        String (if prev_cased then lower_char c else c) (title_from true s')
      else String c (title_from false s')
  end.

Definition title (s : string) : string := title_from false s.

(** [bool(s)]: a string is truthy when it is not empty. *)
Definition truthy (s : string) : bool :=
  match s with EmptyString => false | String _ _ => true end.

(** [s.startswith(p)] *)
Fixpoint startswith (p s : string) : bool :=
  match p with
  | EmptyString => true
  | String a p' =>
      match s with
      | EmptyString => false
      | String b s' => Ascii.eqb a b && startswith p' s'
      end
  end.

(** [needle in s] *)
Fixpoint contains (needle s : string) : bool :=
  startswith needle s ||
  match s with
  | EmptyString => false
  | String _ s' => contains needle s'
  end.

Fixpoint drop (n : nat) (s : string) : string :=
  match n with
  | O => s
  | S k => match s with EmptyString => EmptyString | String _ s' => drop k s' end
  end.

(** [s.endswith(p)] *)
Definition endswith (p s : string) : bool :=
  (String.length p <=? String.length s)%nat &&
  String.eqb (drop (String.length s - String.length p) s) p.

(** [s.lstrip()], [s.rstrip()], [s.strip()] *)
Fixpoint lstrip (s : string) : string :=
  match s with
  | EmptyString => EmptyString
  | String c s' => if is_space c then lstrip s' else s
  end.

Fixpoint rstrip (s : string) : string :=
  match s with
  | EmptyString => EmptyString
  | String c s' =>
      match rstrip s' with
      | EmptyString => if is_space c then EmptyString else String c EmptyString
      | r => String c r
      end
  end.

Definition strip (s : string) : string := rstrip (lstrip s).

(** [s.split()]: the maximal runs of non-whitespace characters; [cur] is the
    run being read. *)
Fixpoint split_from (cur s : string) : list string :=
  match s with
  | EmptyString => if truthy cur then [cur] else []
  | String c s' =>
      if is_space c then
        if truthy cur then cur :: split_from EmptyString s'
        else split_from EmptyString s'
      else split_from (cur +:+ String c EmptyString) s'
  end.

Definition split (s : string) : list string := split_from EmptyString s.

(** [sep.join(l)] *)
Fixpoint join (sep : string) (l : list string) : string :=
  match l with
  | [] => EmptyString
  | x :: l' =>
      match l' with
      | [] => x
      | _ :: _ => x +:+ sep +:+ join sep l'
      end
  end.

(** [s.replace(old, new)] for a non-empty [old]: the occurrences of [old]
    are found left to right without overlap; [skip] counts the characters of
    the occurrence just replaced that are still to be passed over. *)
Fixpoint replace_from (old new : string) (skip : nat) (s : string) : string :=
  match s with
  | EmptyString => EmptyString
  | String c s' =>
      match skip with
      | S k => replace_from old new k s'
      | O =>
          if startswith old s
          then new +:+ replace_from old new (String.length old - 1) s'
          else String c (replace_from old new 0 s')
      end
  end.

(** With an empty [old], [new] is inserted before every character and at the
    end. *)
Fixpoint replace_empty (new s : string) : string :=
  match s with
  | EmptyString => new
  | String c s' => new +:+ String c (replace_empty new s')
  end.

Definition replace (old new s : string) : string :=
  match old with
  | EmptyString => replace_empty new s
  | String _ _ => replace_from old new 0 s
  end.

End Py.

(** ** The functions of [routes.py] *)

Module Routes.
Import Py.

(** [bool(x)] of an optional string: [None] and [""] are falsy. *)
Definition truthy_opt (o : option string) : bool :=
  match o with Some s => truthy s | None => false end.

(** [a or b] where [a] is the result of [dict.get]. *)
Definition or_else (a : option string) (b : string) : string :=
  match a with
  | Some v => if truthy v then v else b
  | None => b
  end.

(** A dictionary whose iteration order matters, in insertion order. *)
Definition odict (V : Type) : Type := list (string * V).

Fixpoint odict_get {V : Type} (k : string) (d : odict V) : option V :=
  match d with
  | [] => None
  | (k', v) :: d' => if String.eqb k k' then Some v else odict_get k d'
  end.

(** *** Loading the product catalog *)

(** The values [json.load] produces (numbers are the integer ones). *)
#[warnings="-register-all"]
Inductive json : Type :=
| JNull
| JBool (b : bool)
| JInt (n : Z)
| JStr (s : string)
| JArr (xs : list json)
| JObj (kvs : list (string * json)).

Inductive exn : Type :=
| OSError
| JSONDecodeError
| AttributeError
| TypeError.

Inductive result (A : Type) : Type :=
| Ok (a : A)
| Raise (e : exn).
Arguments Ok {A} a.
Arguments Raise {A} e.

Definition bind {A B : Type} (r : result A) (k : A -> result B) : result B :=
  match r with
  | Ok a => k a
  | Raise e => Raise e
  end.

Notation "'let!' x ':=' r 'in' k" := (bind r (fun x => k))
  (at level 10, x name, r at level 100, k at level 200).

(** What the file system holds at a path, as [os.path.exists], [open] and
    [json.load] observe it: nothing, or a file on which [open] followed by
    [json.load] returns a value or raises. *)
Inductive file : Type :=
| Missing
| Present (loaded : result json).

Definition filesystem : Type := string -> file.

Definition path_exists (fs : filesystem) (path : string) : bool :=
  match fs path with Missing => false | Present _ => true end.

Definition _load_json (fs : filesystem) (path : string) : result json :=
  match fs path with
  | Missing => Raise OSError
  | Present loaded => loaded
  end.

(** [bool(x)] of a JSON value. *)
Definition json_truthy (x : json) : bool :=
  match x with
  | JNull => false
  | JBool b => b
  | JInt n => negb (n =? 0)%Z
  | JStr s => truthy s
  | JArr xs => match xs with [] => false | _ :: _ => true end
  | JObj kvs => match kvs with [] => false | _ :: _ => true end
  end.

(** [x.get(key, default)]: only a [dict] has the method. *)
Definition json_get (x : json) (key : string) (default : json) : result json :=
  match x with
  | JObj kvs => Ok (match odict_get key kvs with Some v => v | None => default end)
  | _ => Raise AttributeError
  end.

Fixpoint chars (s : string) : list json :=
  match s with
  | EmptyString => []
  | String c s' => JStr (String c EmptyString) :: chars s'
  end.

(** [iter(x)]: a list yields its elements, a dict its keys, a string its
    characters; the other values are not iterable. *)
Definition json_iter (x : json) : result (list json) :=
  match x with
  | JArr xs => Ok xs
  | JObj kvs => Ok (map (fun kv => JStr (fst kv)) kvs)
  | JStr s => Ok (chars s)
  | _ => Raise TypeError
  end.

Definition hashable (x : json) : bool :=
  match x with JArr _ | JObj _ => false | _ => true end.

(** [a == b] on hashable keys ([True == 1]). *)
Definition key_eqb (a b : json) : bool :=
  match a, b with
  | JNull, JNull => true
  | JStr x, JStr y => String.eqb x y
  | JInt x, JInt y => (x =? y)%Z
  | JBool x, JBool y => Bool.eqb x y
  | JBool x, JInt y | JInt y, JBool x => ((if x then 1 else 0) =? y)%Z
  | _, _ => false
  end.

(** [d[k] = v] on a dict in insertion order. *)
Fixpoint dict_set (k v : json) (d : list (json * json)) : list (json * json) :=
  match d with
  | [] => [(k, v)]
  | (k', v') :: d' =>
      if key_eqb k k' then (k', v) :: d' else (k', v') :: dict_set k v d'
  end.

Fixpoint load_accounts (items : list json) (product_map : list (json * json))
  : result (list (json * json)) :=
  match items with
  | [] => Ok product_map
  | item :: items' =>
      let! pid := json_get item "id" JNull in
      let! name := json_get item "name" JNull in
      if json_truthy pid && json_truthy name then
        if hashable pid then load_accounts items' (dict_set pid name product_map)
        else Raise TypeError
      else load_accounts items' product_map
  end.

Definition _load_product_map (fs : filesystem) (rag_path : string)
  : result (list (json * json)) :=
  if negb (endswith ".json" (lower rag_path)) || negb (path_exists fs rag_path)
  then Ok []
  else
    let! data := _load_json fs rag_path in
    let! accounts := json_get data "accounts" (JArr []) in
    let! items := json_iter accounts in
    load_accounts items [].

(** *** Transcript normalisation and product resolution *)

Definition _STT_FIXES : odict string :=
  [ ("a count", "account");
    ("a/c", "account");
    ("a san", "asaan") ].

Definition _apply_stt_fixes (text : string) : string :=
  fold_left (fun normalized st => replace (fst st) (snd st) normalized)
            _STT_FIXES text.

(** [" ".join(text.strip().split())] *)
Definition clean (text : string) : string := join " " (split (strip text)).

(** The text on which the product groups are scanned. *)
Definition normalize (text : string) : string :=
  _apply_stt_fixes (lower (clean text)).

(** [product_map.get(canonical) or canonical.replace("_", " ").title()] *)
Definition display_name (product_map : gmap string string) (canonical : string)
  : string :=
  or_else (product_map !! canonical) (title (replace "_" " " canonical)).

(** [for v in variants: lowered = lowered.replace(v.lower(), name.lower())] *)
Definition rewrite_variants (variants : list string) (product_name lowered : string)
  : string :=
  fold_left (fun acc v => replace (lower v) (lower product_name) acc)
            variants lowered.

(** The inner loop over the variants of one group; [None] when the loop
    ends without returning. *)
Fixpoint scan_variants (lowered canonical : string) (variants rest : list string)
    (product_map : gmap string string) : option (string * option string) :=
  match rest with
  | [] => None
  | variant :: rest' =>
      let needle := lower variant in
      if contains needle lowered then
        let product_name := display_name product_map canonical in
        Some (rewrite_variants variants product_name lowered, Some product_name)
      else scan_variants lowered canonical variants rest' product_map
  end.

(** The outer loop over the groups. *)
Fixpoint scan_groups (lowered : string) (groups : odict (list string))
    (product_map : gmap string string) : string * option string :=
  match groups with
  | [] => (lowered, None)
  | (canonical, variants) :: groups' =>
      match scan_variants lowered canonical variants variants product_map with
      | Some r => r
      | None => scan_groups lowered groups' product_map
      end
  end.

Definition _normalize_transcript (text : string)
    (product_normalization : odict (list string))
    (product_map : gmap string string) : string * option string :=
  let cleaned := join " " (split (strip text)) in
  let lowered := lower cleaned in
  let lowered := _apply_stt_fixes lowered in
  scan_groups lowered product_normalization product_map.

(** *** Intent detection *)

Fixpoint scan_keywords (normalized_text : string) (keywords : list string) : bool :=
  match keywords with
  | [] => false
  | keyword :: keywords' =>
      if contains (lower keyword) normalized_text then true
      else scan_keywords normalized_text keywords'
  end.

Fixpoint _detect_intent (normalized_text : string)
    (intent_keywords : odict (list string)) : option string :=
  match intent_keywords with
  | [] => None
  | (intent, keywords) :: intent_keywords' =>
      if scan_keywords normalized_text keywords then Some intent
      else _detect_intent normalized_text intent_keywords'
  end.

(** *** Retrieval query *)

Definition generic_expansion : list string :=
  ["features"; "eligibility"; "documents"; "process"].

(** The candidate terms, [parts + expansion]. *)
Definition candidates (normalized_text : string) (product_name intent : option string)
    (intent_keywords : odict (list string)) : list string :=
  let parts := if truthy normalized_text then [normalized_text] else [] in
  let parts :=
    match product_name with
    | Some p =>
        if truthy p && negb (contains (lower p) normalized_text)
        then parts ++ [p] else parts
    | None => parts
    end in
  let parts :=
    match intent with
    | Some i => if truthy i then parts ++ [replace "_" " " i] else parts
    | None => parts
    end in
  let expansion :=
    match intent with
    | Some i =>
        if truthy i then
          match odict_get i intent_keywords with
          | Some kws => generic_expansion ++ kws
          | None => generic_expansion
          end
        else generic_expansion
    | None => generic_expansion
    end in
  parts ++ expansion.

(** The loop that fills [ordered], with the set [seen]. *)
Fixpoint dedupe (seen : gset string) (items : list string) : list string :=
  match items with
  | [] => []
  | item :: items' =>
      let token := strip item in
      let key := lower token in
      if truthy token && bool_decide (key ∉ seen)
      then token :: dedupe ({[key]} ∪ seen) items'
      else dedupe seen items'
  end.

(** The list [ordered] that is joined into the query. *)
Definition query_terms (normalized_text : string) (product_name intent : option string)
    (intent_keywords : odict (list string)) : list string :=
  dedupe ∅ (candidates normalized_text product_name intent intent_keywords).

Definition _build_retrieval_query (normalized_text : string)
    (product_name intent : option string)
    (intent_keywords : odict (list string)) : string :=
  join " " (query_terms normalized_text product_name intent intent_keywords).

(** *** Fallback selection *)

Definition default_reply : string := "Mazrat, main samajh nahi saka.".

Definition _fallback_response (normalized_text : string)
    (product_name intent : option string)
    (fallbacks : gmap string string) : string :=
  let is_account :=
    contains "account" normalized_text ||
    bool_decide (intent = Some "account_benefits" \/ intent = Some "account_opening") in
  if is_account && negb (truthy_opt product_name) then
    or_else (fallbacks !! "clarify_account")
      (or_else (fallbacks !! "handoff") default_reply)
  else if bool_decide (intent = Some "account_opening") then
    or_else (fallbacks !! "general_opening")
      (or_else (fallbacks !! "handoff") default_reply)
  else or_else (fallbacks !! "handoff") default_reply.

End Routes.

(** ** Predicates used in the statements *)

Module Props.
Import Py Routes.

(** An intent matches when one of its keywords, lower-cased, occurs in the
    text. *)
Definition intent_matches (text : string) (entry : string * list string) : bool :=
  existsb (fun keyword => contains (lower keyword) text) (snd entry).

(** A group matches when one of its variants, lower-cased, occurs in the
    text. *)
Definition group_matches (lowered : string) (group : string * list string) : bool :=
  existsb (fun variant => contains (lower variant) lowered) (snd group).

(** What the resolver returns when it selects the group [group]. *)
Definition resolved (lowered : string) (group : string * list string)
    (product_map : gmap string string)
  : string * option string :=
  let product_name := display_name product_map (fst group) in
  (rewrite_variants (snd group) product_name lowered, Some product_name).

(** A string that is empty or starts with a character that is not
    whitespace. *)
Definition no_leading_space (s : string) : bool :=
  match s with
  | EmptyString => true
  | String c _ => negb (is_space c)
  end.

(** A scanner for the shape of whitespace in a text: the only whitespace
    character is the space, and a space only comes after a character that
    is not whitespace. *)
Inductive ws_state : Type := AtStart | AfterSpace | AfterChar.

Definition ws_step (st : ws_state) (c : ascii) : option ws_state :=
  if Ascii.eqb c " " then
    match st with AfterChar => Some AfterSpace | _ => None end
  else if is_space c then None
  else Some AfterChar.

Fixpoint ws_run (st : ws_state) (s : string) : option ws_state :=
  match s with
  | EmptyString => Some st
  | String c s' =>
      match ws_step st c with
      | Some st' => ws_run st' s'
      | None => None
      end
  end.

Definition accepting (st : ws_state) : bool :=
  match st with AfterSpace => false | _ => true end.

(** No whitespace at either end, and words separated by single spaces. *)
Definition tidy (s : string) : bool :=
  match ws_run AtStart s with
  | Some st => accepting st
  | None => false
  end.

Fixpoint no_space (s : string) : bool :=
  match s with
  | EmptyString => true
  | String c s' => negb (is_space c) && no_space s'
  end.

(** Every character is its own lower-case form. *)
Fixpoint is_lowered (s : string) : bool :=
  match s with
  | EmptyString => true
  | String c s' => Ascii.eqb (lower_char c) c && is_lowered s'
  end.

(** The non-empty suffixes of a string. *)
Fixpoint tails (s : string) : list string :=
  match s with
  | EmptyString => []
  | String _ s' => s :: tails s'
  end.

(** Two strings agree when one is a prefix of the other. *)
Definition agree (a b : string) : bool := startswith a b || startswith b a.

(** [p] and [new] clash when no occurrence of [p] can overlap an occurrence
    of [new], whatever surrounds them. *)
Definition clash (p new : string) : bool :=
  forallb (fun q => negb (agree q new)) (tails p) &&
  forallb (fun u => negb (agree p u)) (tails new).

(** [p] starts somewhere in [s] where [old] does not. *)
Fixpoint hits (old p s : string) : bool :=
  startswith p s && negb (startswith old s) ||
  match s with
  | EmptyString => false
  | String _ s' => hits old p s'
  end.

End Props.

(** ** Start-up and the answer pipeline *)

Module App.
Import Py Routes.

(** [os.getenv(name, default)] on the process environment. *)
Definition getenv (env : gmap string string) (name default : string) : string :=
  match env !! name with
  | Some v => v
  | None => default
  end.

(** What start-up code raises: an error of the loaders, the [RuntimeError]
    of [_load_voice_config], or a [KeyError] of an indexing. *)
Inductive raised : Type :=
| Raised (e : exn)
| RuntimeError (msg : string)
| KeyError (key : string).

Inductive res (A : Type) : Type :=
| Return (a : A)
| Throw (e : raised).
Arguments Return {A} a.
Arguments Throw {A} e.

Definition res_bind {A B : Type} (r : res A) (k : A -> res B) : res B :=
  match r with
  | Return a => k a
  | Throw e => Throw e
  end.

Definition lift {A : Type} (r : result A) : res A :=
  match r with
  | Ok a => Return a
  | Raise e => Throw (Raised e)
  end.

Notation "'try!' x ':=' r 'in' k" := (res_bind r (fun x => k))
  (at level 10, x name, r at level 100, k at level 200).

Definition _load_voice_config (fs : filesystem) (env : gmap string string)
  : res json :=
  let path := getenv env "VOICE_CONFIG_PATH" "bankislami_voice_config.json" in
  try! data := lift (_load_json fs path) in
  try! section := lift (json_get data "system_prompt" (JObj [])) in
  try! system_prompt := lift (json_get section "content" JNull) in
  if negb (json_truthy system_prompt)
  then Throw (RuntimeError "Missing system_prompt.content in voice config.")
  else Return data.

(** [x[key]] with a string key. *)
Definition json_index (x : json) (key : string) : res json :=
  match x with
  | JObj kvs =>
      match odict_get key kvs with
      | Some v => Return v
      | None => Throw (KeyError key)
      end
  | _ => Throw (Raised TypeError)
  end.

(** The configuration [create_app] reads before it defines the routes. *)
Record app_config : Type := {
  system_prompt : json;
  intent_keywords : json;
  product_normalization : json;
  fallback_responses : json;
  product_map : list (json * json)
}.

Definition load_app_config (fs : filesystem) (env : gmap string string)
  : res app_config :=
  let rag_path := getenv env "RAG_DATA_PATH" "bank.json" in
  try! voice_config := _load_voice_config fs env in
  try! section := json_index voice_config "system_prompt" in
  try! system_prompt := json_index section "content" in
  try! intent_keywords := lift (json_get voice_config "intent_keywords" (JObj [])) in
  try! normalization :=
    lift (json_get voice_config "product_normalization" (JObj [])) in
  try! product_normalization := lift (json_get normalization "accounts" (JObj [])) in
  try! fallback_responses :=
    lift (json_get voice_config "fallback_responses" (JObj [])) in
  try! product_map := lift (_load_product_map fs rag_path) in
  Return {| system_prompt := system_prompt;
            intent_keywords := intent_keywords;
            product_normalization := product_normalization;
            fallback_responses := fallback_responses;
            product_map := product_map |}.

(** [d.get(k)] on the dict that [_load_product_map] builds. *)
Fixpoint dict_lookup (k : json) (d : list (json * json)) : option json :=
  match d with
  | [] => None
  | (k', v) :: d' => if key_eqb k k' then Some v else dict_lookup k d'
  end.

(** *** [get_answer] *)

Definition greetings : list string :=
  ["hi"; "hello"; "hey"; "salam"; "assalamualaikum"; "asalamualaikum"].

Definition greeting_reply : string :=
  "Assalam-o-Alaikum. Welcome to Bank Islami. Mai aap ki madad ke liye hoon.".

(** The collaborators of [get_answer] that live outside [routes.py]: the
    retrieval over a store, the answer generation (which may fail) and the
    formatting of its output. *)
Record collaborators (Store : Type) : Type := {
  build_rag_context : string -> Store -> string;
  generate_text : string -> string -> string -> res string;
  format_response : string -> string
}.
Arguments build_rag_context {Store} _ _ _.
Arguments generate_text {Store} _ _ _ _.
Arguments format_response {Store} _ _.

(** The closure [get_answer] of [create_app], with what it captures as
    arguments; [rag_store] is [None] when no store was built. *)
Definition get_answer {Store : Type} (ext : collaborators Store)
    (system_prompt : string)
    (intent_keywords product_normalization : odict (list string))
    (fallback_responses product_map : gmap string string)
    (rag_store : option Store) (user_text : string) : res string :=
  let normalized := lower (strip user_text) in
  if bool_decide (normalized ∈ greetings) then Return greeting_reply
  else
    let '(normalized_text, product_name) :=
      _normalize_transcript user_text product_normalization product_map in
    let intent := _detect_intent normalized_text intent_keywords in
    let query :=
      _build_retrieval_query normalized_text product_name intent intent_keywords in
    let rag_context :=
      match rag_store with
      | Some store => build_rag_context ext query store
      | None => ""
      end in
    if negb (truthy rag_context) then
      Return (_fallback_response normalized_text product_name intent
                fallback_responses)
    else
      try! text := generate_text ext user_text system_prompt rag_context in
      Return (format_response ext text).

(** *** [GET /webhook] *)

(** The response of [webhook_verify]: status, body and media type. *)
Definition webhook_verify (env : gmap string string)
    (hub_mode hub_verify_token hub_challenge : option string)
  : nat * string * string :=
  let verify_token := getenv env "VERIFY_TOKEN" "" in
  if bool_decide (hub_mode = Some "subscribe") &&
     bool_decide (hub_verify_token = Some verify_token) &&
     truthy_opt hub_challenge
  then (200, match hub_challenge with Some c => c | None => "" end, "text/plain")
  else (403, "Forbidden", "text/plain").

(** *** Predicates used in the statements *)

(** A configuration in which every keyword or variant is lower-cased. *)
Definition lower_config (cfg : odict (list string)) : odict (list string) :=
  map (fun entry => (fst entry, map lower (snd entry))) cfg.

Fixpoint all_space (s : string) : bool :=
  match s with
  | EmptyString => true
  | String c s' => is_space c && all_space s'
  end.

(** A catalog item that [_load_product_map] can read: an object whose [id],
    when it has one, is not a list or an object. *)
Definition readable_item (item : json) : bool :=
  match item with
  | JObj kvs =>
      match odict_get "id" kvs with
      | Some pid => hashable pid
      | None => true
      end
  | _ => false
  end.

(** The [id] of a catalog item, [None] when it has none. *)
Definition item_id (item : json) : json :=
  match item with
  | JObj kvs =>
      match odict_get "id" kvs with
      | Some pid => pid
      | None => JNull
      end
  | _ => JNull
  end.

(** An entry of the loaded map: a truthy, hashable id with a truthy name. *)
Definition entry_ok (entry : json * json) : bool :=
  json_truthy (fst entry) && hashable (fst entry) && json_truthy (snd entry).

(** *** Well-typed configuration

    [create_app] hands the JSON it read to [get_answer] unchecked, while the
    helpers of [get_answer] expect strings: keywords and variants that are
    lists of strings, templates and catalog names that are strings.  These
    functions read a JSON value at those types, and give [None] when it
    does not have them. *)

Definition json_string (x : json) : option string :=
  match x with JStr s => Some s | _ => None end.

Definition json_strings (x : json) : option (list string) :=
  match x with
  | JArr xs => mapM json_string xs
  | _ => None
  end.

Definition typed_odict (x : json) : option (odict (list string)) :=
  match x with
  | JObj kvs => mapM (fun kv => pair (fst kv) <$> json_strings (snd kv)) kvs
  | _ => None
  end.

Definition typed_templates (x : json) : option (gmap string string) :=
  match x with
  | JObj kvs =>
      list_to_map <$> mapM (fun kv => pair (fst kv) <$> json_string (snd kv)) kvs
  | _ => None
  end.

(** The catalog names under string ids (an id that is not a string is never
    looked up, a canonical key being a string). *)
Fixpoint typed_catalog (m : list (json * json)) : option (gmap string string) :=
  match m with
  | [] => Some ∅
  | (JStr k, v) :: m' =>
      match json_string v, typed_catalog m' with
      | Some name, Some rest => Some (<[k := name]> rest)
      | _, _ => None
      end
  | _ :: m' => typed_catalog m'
  end.

End App.

Import Py Routes Props App.

(** ** The model on concrete inputs *)

Example lower_ex : Py.lower "Asaan A/C  x" = "asaan a/c  x".
Proof. reflexivity. Qed.
Example title_ex : Py.title "asaan account x1y HELLO" = "Asaan Account X1Y Hello".
Proof. reflexivity. Qed.
Example split_ex : Py.split "  open   a count
 please " = ["open"; "a"; "count"; "please"].
Proof. reflexivity. Qed.
Example strip_ex : Py.strip "  a b  " = "a b".
Proof. reflexivity. Qed.
Example join_ex : Py.join " " ["a"; "b"; "c"] = "a b c".
Proof. reflexivity. Qed.
Example replace_ex : Py.replace "aa" "b" "aaaaa" = "bba".
Proof. reflexivity. Qed.
Example replace_ex2 : Py.replace "" "-" "abc" = "-a-b-c-".
Proof. reflexivity. Qed.
Example replace_ex3 : Py.replace "a count" "account" "open a count please a coun" = "open account please a coun".
Proof. reflexivity. Qed.
Example contains_ex : Py.contains "" "" = true /\ Py.contains "bc" "abcd" = true /\ Py.contains "bd" "abcd" = false.
Proof. repeat split; reflexivity. Qed.
Example endswith_ex : Py.endswith ".json" "bank.json" = true /\ Py.endswith ".json" "json" = false.
Proof. repeat split; reflexivity. Qed.
Example normalize_ex : normalize "  Open   a Count  please " = "open account please".
Proof. reflexivity. Qed.
Example normalize_transcript_ex :
  _normalize_transcript "I want an ASAAN a/c"
    [("asaan_account", ["asaan account"; "easy account"])] ∅
  = ("i want an asaan account", Some "Asaan Account").
Proof. reflexivity. Qed.
Example detect_intent_ex :
  _detect_intent "open an account"
    [("account_benefits", ["benefit"]); ("account_opening", ["Open"])]
  = Some "account_opening".
Proof. reflexivity. Qed.
Example build_query_ex :
  _build_retrieval_query "open asaan account" (Some "Asaan Account")
    (Some "account_opening") [("account_opening", ["open"; "Features"; " apply "])]
  = "open asaan account account opening features eligibility documents process open apply".
Proof. reflexivity. Qed.
Example fallback_ex :
  _fallback_response "i want to open an account" None None
    {["clarify_account" := "Which account?"]}
  = "Which account?".
Proof. reflexivity. Qed.

(** ** Basic facts about the string primitives *)

Section StringFacts.

Lemma sapp_cons c s t : String c s +:+ t = String c (s +:+ t).
Proof. reflexivity. Qed.

Lemma sapp_nil_l s : "" +:+ s = s.
Proof. reflexivity. Qed.

Lemma sapp_nil_r s : s +:+ "" = s.
Proof. induction s as [|c s IH]; [reflexivity|]. by rewrite sapp_cons, IH. Qed.

Lemma sapp_assoc s t u : (s +:+ t) +:+ u = s +:+ (t +:+ u).
Proof. induction s as [|c s IH]; [reflexivity|]. by rewrite !sapp_cons, IH. Qed.

Lemma truthy_true s : truthy s = true <-> s <> "".
Proof. destruct s; simpl; split; congruence. Qed.

Lemma truthy_false s : truthy s = false <-> s = "".
Proof. destruct s; simpl; split; congruence. Qed.

Lemma truthy_app_l s t : truthy s = true -> truthy (s +:+ t) = true.
Proof. by destruct s. Qed.

Lemma startswith_nil s : startswith "" s = true.
Proof. reflexivity. Qed.

Lemma contains_nil s : contains "" s = true.
Proof. by destruct s. Qed.

Lemma startswith_refl s : startswith s s = true.
Proof.
  induction s as [|c s IH]; [reflexivity|].
  simpl. by rewrite Ascii.eqb_refl, IH.
Qed.

Lemma startswith_app p r : startswith p (p +:+ r) = true.
Proof.
  induction p as [|c p IH]; [reflexivity|].
  rewrite sapp_cons. simpl. by rewrite Ascii.eqb_refl, IH.
Qed.

Lemma startswith_inv p s :
  startswith p s = true -> exists r, s = p +:+ r.
Proof.
  revert s. induction p as [|c p IH]; intros s H.
  - by exists s.
  - destruct s as [|d s]; [discriminate|]. simpl in H.
    apply andb_true_iff in H as [Hc Hp]. apply Ascii.eqb_eq in Hc as ->.
    destruct (IH _ Hp) as [r ->]. by exists r.
Qed.

Lemma contains_refl s : contains s s = true.
Proof. destruct s; simpl; [reflexivity|]. by rewrite Ascii.eqb_refl, startswith_refl. Qed.

End StringFacts.

(** ** Stripping *)

Section Strip.

Lemma lstrip_fixed s : no_leading_space s = true -> lstrip s = s.
Proof. destruct s as [|c s]; [done|]. simpl. by destruct (is_space c). Qed.

Lemma lstrip_no_leading_space s : no_leading_space (lstrip s) = true.
Proof.
  induction s as [|c s IH]; [done|]. simpl.
  destruct (is_space c) eqn:Hc; [done|]. simpl. by rewrite Hc.
Qed.

Lemma rstrip_no_leading_space s :
  no_leading_space s = true -> no_leading_space (rstrip s) = true.
Proof.
  destruct s as [|c s]; [done|]. simpl. intros Hc.
  destruct (rstrip s); simpl; [|done].
  destruct (is_space c) eqn:E; simpl in *; [done|by rewrite E].
Qed.

Lemma rstrip_rstrip s : rstrip (rstrip s) = rstrip s.
Proof.
  induction s as [|c s IH]; [done|]. simpl.
  destruct (rstrip s) as [|d r] eqn:Hr.
  - destruct (is_space c) eqn:Hc; [done|]. simpl. by rewrite Hc.
  - change (rstrip (String c (String d r))) with
      (match rstrip (String d r) with
       | EmptyString => if is_space c then EmptyString else String c EmptyString
       | r' => String c r'
       end).
    by rewrite IH.
Qed.

Lemma strip_strip s : strip (strip s) = strip s.
Proof.
  unfold strip.
  rewrite (lstrip_fixed (rstrip (lstrip s))).
  - apply rstrip_rstrip.
  - apply rstrip_no_leading_space, lstrip_no_leading_space.
Qed.

End Strip.

(** ** Replacement *)

Section Replace.

Lemma length_sapp s t : String.length (s +:+ t) = String.length s + String.length t.
Proof. induction s as [|c s IH]; [done|]. rewrite sapp_cons. simpl. by rewrite IH. Qed.

Lemma drop_sapp p r : drop (String.length p) (p +:+ r) = r.
Proof. induction p as [|c p IH]; [done|]. by rewrite sapp_cons. Qed.

Lemma replace_from_skip old new k s :
  replace_from old new k s = replace_from old new 0 (drop k s).
Proof.
  revert k. induction s as [|c s IH]; intros [|k]; try done.
  simpl. apply IH.
Qed.

Lemma replace_from_hit old new r :
  old <> "" ->
  replace_from old new 0 (old +:+ r) = new +:+ replace_from old new 0 r.
Proof.
  intros Hold. destruct old as [|a o]; [done|].
  rewrite sapp_cons.
  change (replace_from (String a o) new 0 (String a (o +:+ r))) with
    (if startswith (String a o) (String a (o +:+ r))
     then new +:+ replace_from (String a o) new (String.length (String a o) - 1) (o +:+ r)
     else String a (replace_from (String a o) new 0 (o +:+ r))).
  rewrite <- sapp_cons, startswith_app.
  f_equal. rewrite replace_from_skip. simpl. rewrite Nat.sub_0_r.
  by rewrite drop_sapp.
Qed.

Lemma replace_from_miss old new c s :
  startswith old (String c s) = false ->
  replace_from old new 0 (String c s) = String c (replace_from old new 0 s).
Proof.
  intros H.
  change (replace_from old new 0 (String c s)) with
    (if startswith old (String c s)
     then new +:+ replace_from old new (String.length old - 1) s
     else String c (replace_from old new 0 s)).
  by rewrite H.
Qed.

(** The induction principle that follows the scan of [replace_from]. *)
Lemma replace_from_ind old new (P : string -> string -> Prop) :
  old <> "" ->
  P "" "" ->
  (forall r out, P r out -> P (old +:+ r) (new +:+ out)) ->
  (forall c s out,
     startswith old (String c s) = false -> P s out -> P (String c s) (String c out)) ->
  forall s, P s (replace_from old new 0 s).
Proof.
  intros Hold Hnil Hhit Hmiss s.
  remember (String.length s) as n eqn:Hn. revert s Hn.
  induction n as [n IH] using lt_wf_ind. intros s Hn.
  destruct s as [|c s]; [exact Hnil|].
  destruct (startswith old (String c s)) eqn:Hsw.
  - apply startswith_inv in Hsw as [r Hr]. rewrite Hr.
    rewrite replace_from_hit by done. apply Hhit.
    apply (IH (String.length r)); [|done].
    subst n. rewrite Hr, length_sapp.
    destruct old; [done|simpl; lia].
  - rewrite replace_from_miss by done. apply Hmiss; [done|].
    apply (IH (String.length s)); [subst n; simpl; lia|done].
Qed.

Lemma replace_absent old new s :
  contains old s = false -> replace old new s = s.
Proof.
  intros Hc. destruct old as [|a o]; [by rewrite contains_nil in Hc|].
  unfold replace. induction s as [|c s IH]; [done|].
  simpl in Hc. apply orb_false_iff in Hc as [Hsw Hc].
  rewrite replace_from_miss by done. by rewrite IH.
Qed.

Lemma replace_self s new : replace s new s = new.
Proof.
  destruct s as [|a o]; [done|]. unfold replace.
  rewrite <- (sapp_nil_r (String a o)) at 2.
  rewrite replace_from_hit by done. apply sapp_nil_r.
Qed.

End Replace.

(** ** Lower-casing commutes with whitespace cleaning *)

Section LowerClean.

Lemma is_space_lower_char c : is_space (lower_char c) = is_space c.
Proof. by destruct c as [[] [] [] [] [] [] [] []]. Qed.

Lemma lower_char_idem c : lower_char (lower_char c) = lower_char c.
Proof. by destruct c as [[] [] [] [] [] [] [] []]. Qed.

Lemma lower_lower s : lower (lower s) = lower s.
Proof. induction s as [|c s IH]; [done|]. simpl. by rewrite lower_char_idem, IH. Qed.

Lemma lower_sapp s t : lower (s +:+ t) = lower s +:+ lower t.
Proof. induction s as [|c s IH]; [done|]. rewrite sapp_cons. simpl. by rewrite IH. Qed.

Lemma truthy_lower s : truthy (lower s) = truthy s.
Proof. by destruct s. Qed.

Lemma lower_lstrip s : lower (lstrip s) = lstrip (lower s).
Proof.
  induction s as [|c s IH]; [done|]. simpl.
  rewrite is_space_lower_char. by destruct (is_space c).
Qed.

Lemma lower_rstrip s : lower (rstrip s) = rstrip (lower s).
Proof.
  induction s as [|c s IH]; [done|]. simpl.
  rewrite <- IH, is_space_lower_char.
  destruct (rstrip s); simpl; [|done].
  by destruct (is_space c).
Qed.

Lemma lower_strip s : lower (strip s) = strip (lower s).
Proof. unfold strip. by rewrite lower_rstrip, lower_lstrip. Qed.

Lemma lower_split_from cur s :
  lower <$> split_from cur s = split_from (lower cur) (lower s).
Proof.
  revert cur. induction s as [|c s IH]; intros cur; simpl.
  - rewrite truthy_lower. by destruct (truthy cur).
  - rewrite is_space_lower_char, truthy_lower.
    destruct (is_space c).
    + destruct (truthy cur); [rewrite fmap_cons|]; by rewrite (IH "").
    + by rewrite IH, lower_sapp.
Qed.

Lemma lower_join sep l : lower (join sep l) = join (lower sep) (lower <$> l).
Proof.
  induction l as [|x l IH]; [done|].
  destruct l as [|y l]; [done|].
  change (join sep (x :: y :: l)) with (x +:+ sep +:+ join sep (y :: l)).
  rewrite !lower_sapp, IH. reflexivity.
Qed.

Lemma lower_clean s : lower (clean s) = clean (lower s).
Proof.
  unfold clean, split.
  by rewrite lower_join, lower_split_from, lower_strip.
Qed.

(** Two spellings of one text that differ only in letter case have the
    same normal form. *)
Lemma normalize_casing x s : lower x = lower s -> normalize x = normalize s.
Proof. intros H. unfold normalize. by rewrite !lower_clean, H. Qed.

End LowerClean.

(** ** Texts with clean whitespace *)

Section Tidy.

Lemma ws_run_sapp st s t :
  ws_run st (s +:+ t) = ws_run st s ≫= fun st' => ws_run st' t.
Proof.
  revert st. induction s as [|c s IH]; intros st; [done|].
  rewrite sapp_cons. simpl. destruct (ws_step st c); [apply IH|done].
Qed.

Lemma ws_step_space st c st' :
  ws_step st c = Some st' -> is_space c = true ->
  c = " "%char /\ st = AfterChar /\ st' = AfterSpace.
Proof.
  unfold ws_step. destruct (Ascii.eqb_spec c " ") as [->|Hne].
  - destruct st; try discriminate. intros [= <-] _. done.
  - intros H Hc. rewrite Hc in H. discriminate.
Qed.

Lemma ws_step_char st c :
  is_space c = false -> ws_step st c = Some AfterChar.
Proof.
  intros Hc. unfold ws_step. rewrite Hc.
  destruct (Ascii.eqb_spec c " ") as [->|Hne]; [discriminate|done].
Qed.

Lemma ws_step_accepting st c st' :
  ws_step st c = Some st' -> accepting st' = true -> is_space c = false.
Proof.
  intros Hstep Hacc. destruct (is_space c) eqn:Hc; [|done].
  destruct (ws_step_space _ _ _ Hstep Hc) as (_ & _ & ->). discriminate.
Qed.

Lemma ws_run_rstrip st s st' :
  ws_run st s = Some st' -> accepting st' = true -> rstrip s = s.
Proof.
  revert st. induction s as [|c s IH]; intros st Hrun Hacc; [done|].
  simpl in Hrun. destruct (ws_step st c) as [st1|] eqn:Hstep; [|done].
  simpl. rewrite (IH _ Hrun Hacc).
  destruct s as [|d s]; [|done].
  simpl in Hrun. injection Hrun as ->.
  by rewrite (ws_step_accepting _ _ _ Hstep Hacc).
Qed.

Lemma tidy_strip s : tidy s = true -> strip s = s.
Proof.
  unfold tidy, strip. intros Ht.
  destruct (ws_run AtStart s) as [st'|] eqn:Hrun; [|done].
  rewrite lstrip_fixed; [by eapply ws_run_rstrip|].
  destruct s as [|c s]; [done|]. simpl in *.
  destruct (ws_step AtStart c) as [st1|] eqn:Hstep; [|done].
  destruct (is_space c) eqn:Hc; [|done].
  by destruct (ws_step_space _ _ _ Hstep Hc) as (_ & ? & _).
Qed.

Lemma split_from_truthy cur s : truthy cur = true -> split_from cur s <> [].
Proof.
  revert cur. induction s as [|c s IH]; intros cur Hcur; simpl.
  - by rewrite Hcur.
  - destruct (is_space c); [by rewrite Hcur|].
    apply IH. by destruct cur.
Qed.

Lemma join_cons sep x l :
  l <> [] -> join sep (x :: l) = x +:+ sep +:+ join sep l.
Proof. by destruct l. Qed.

Lemma join_split_from st s st' cur :
  ws_run st s = Some st' -> accepting st' = true ->
  (if st is AfterChar then truthy cur = true else cur = "") ->
  join " " (split_from cur s) = cur +:+ s.
Proof.
  revert st cur. induction s as [|c s IH]; intros st cur Hrun Hacc Hcur.
  - simpl. rewrite sapp_nil_r. by destruct cur.
  - simpl in Hrun. destruct (ws_step st c) as [st1|] eqn:Hstep; [|done].
    simpl. destruct (is_space c) eqn:Hc.
    + destruct (ws_step_space _ _ _ Hstep Hc) as (-> & -> & ->).
      rewrite Hcur.
      destruct s as [|d s]; [by injection Hrun as <-|].
      assert (Hd : is_space d = false).
      { simpl in Hrun. destruct (ws_step AfterSpace d) eqn:Hstep'; [|done].
        destruct (is_space d) eqn:Hd; [|done].
        by destruct (ws_step_space _ _ _ Hstep' Hd) as (_ & ? & _). }
      rewrite join_cons.
      * by rewrite (IH AfterSpace "" Hrun Hacc).
      * simpl. rewrite Hd. by apply split_from_truthy.
    + rewrite (ws_step_char st c Hc) in Hstep. injection Hstep as <-.
      rewrite (IH AfterChar _ Hrun Hacc).
      * by rewrite sapp_assoc.
      * by destruct cur.
Qed.

Lemma clean_fixed s : tidy s = true -> clean s = s.
Proof.
  intros Ht. unfold clean, split. rewrite (tidy_strip s Ht).
  unfold tidy in Ht. destruct (ws_run AtStart s) as [st'|] eqn:Hrun; [|done].
  by rewrite (join_split_from AtStart s st' "" Hrun Ht).
Qed.

Lemma no_space_sapp s t : no_space (s +:+ t) = no_space s && no_space t.
Proof.
  induction s as [|c s IH]; [done|]. rewrite sapp_cons. simpl.
  by rewrite IH, andb_assoc.
Qed.

Lemma split_from_words cur s :
  no_space cur = true ->
  Forall (fun w => truthy w = true /\ no_space w = true) (split_from cur s).
Proof.
  revert cur. induction s as [|c s IH]; intros cur Hcur; simpl.
  - destruct (truthy cur) eqn:Ht; by repeat constructor.
  - destruct (is_space c) eqn:Hc.
    + destruct (truthy cur) eqn:Ht; [constructor; [done|]|]; by apply IH.
    + apply IH. rewrite no_space_sapp, Hcur. simpl. by rewrite Hc.
Qed.

Lemma ws_run_word st w :
  truthy w = true -> no_space w = true -> ws_run st w = Some AfterChar.
Proof.
  revert st. induction w as [|c w IH]; intros st Ht Hns; [done|].
  simpl in Hns. apply andb_true_iff in Hns as [Hc Hns].
  apply negb_true_iff in Hc. simpl. rewrite (ws_step_char st c Hc).
  destruct w as [|d w]; [done|]. by apply IH.
Qed.

Lemma ws_run_join st words :
  Forall (fun w => truthy w = true /\ no_space w = true) words ->
  words <> [] ->
  ws_run st (join " " words) = Some AfterChar.
Proof.
  intros Hall. revert st.
  induction Hall as [|w words [Ht Hns] _ IH]; intros st Hne; [done|].
  destruct words as [|w2 words]; [by apply ws_run_word|].
  rewrite join_cons by done.
  rewrite ws_run_sapp, (ws_run_word st w Ht Hns). simpl.
  by apply IH.
Qed.

Lemma tidy_clean s : tidy (clean s) = true.
Proof.
  unfold clean, split, tidy.
  destruct (split_from "" (strip s)) as [|w words] eqn:Hsplit; [done|].
  rewrite ws_run_join; [done| |done].
  rewrite <- Hsplit. by apply split_from_words.
Qed.

Lemma ws_step_lower st c : ws_step st (lower_char c) = ws_step st c.
Proof. by destruct st, c as [[] [] [] [] [] [] [] []]. Qed.

Lemma ws_run_lower st s : ws_run st (lower s) = ws_run st s.
Proof.
  revert st. induction s as [|c s IH]; intros st; [done|].
  simpl. rewrite ws_step_lower. destruct (ws_step st c); [apply IH|done].
Qed.

Lemma tidy_lower s : tidy (lower s) = tidy s.
Proof. unfold tidy. by rewrite ws_run_lower. Qed.

(** Replacing [old] by [new] keeps the shape of whitespace when the scanner
    cannot tell the two apart. *)
Lemma ws_run_replace old new s :
  old <> "" ->
  (forall st, ws_run st new = ws_run st old) ->
  forall st, ws_run st (replace old new s) = ws_run st s.
Proof.
  intros Hold Hsame. destruct old as [|a o]; [done|].
  unfold replace.
  apply (replace_from_ind (String a o) new
           (fun s out => forall st, ws_run st out = ws_run st s)); [done|done| |].
  - intros r out IH st. rewrite !ws_run_sapp, Hsame.
    destruct (ws_run st (String a o)); [apply IH|done].
  - intros c s' out _ IH st. simpl.
    destruct (ws_step st c); [apply IH|done].
Qed.

Lemma tidy_replace old new s :
  old <> "" ->
  (forall st, ws_run st new = ws_run st old) ->
  tidy (replace old new s) = tidy s.
Proof. intros Hold Hsame. unfold tidy. by rewrite ws_run_replace. Qed.

End Tidy.

(** ** Occurrences of a pattern after a replacement *)

Section Occurrences.

Lemma is_lowered_lower s : is_lowered (lower s) = true.
Proof.
  induction s as [|c s IH]; [done|]. simpl.
  by rewrite lower_char_idem, Ascii.eqb_refl, IH.
Qed.

Lemma is_lowered_fixed s : is_lowered s = true -> lower s = s.
Proof.
  induction s as [|c s IH]; [done|]. simpl.
  intros [Hc Hs]%andb_true_iff. apply Ascii.eqb_eq in Hc.
  by rewrite Hc, IH.
Qed.

Lemma is_lowered_sapp s t : is_lowered (s +:+ t) = is_lowered s && is_lowered t.
Proof.
  induction s as [|c s IH]; [done|]. rewrite sapp_cons. simpl.
  by rewrite IH, andb_assoc.
Qed.

Lemma is_lowered_replace old new s :
  old <> "" -> is_lowered new = true -> is_lowered s = true ->
  is_lowered (replace old new s) = true.
Proof.
  intros Hold Hnew. destruct old as [|a o]; [done|]. unfold replace.
  apply (replace_from_ind (String a o) new
           (fun s out => is_lowered s = true -> is_lowered out = true));
    [done|done| |].
  - intros r out IH. rewrite !is_lowered_sapp, Hnew.
    intros [_ Hr]%andb_true_iff. by apply IH.
  - intros c s' out _ IH. simpl.
    intros [-> Hs]%andb_true_iff. by apply IH.
Qed.

Lemma agree_startswith q new rest :
  startswith q (new +:+ rest) = true -> agree q new = true.
Proof.
  unfold agree. revert new.
  induction q as [|c q IH]; intros new H; [done|].
  destruct new as [|d new]; [by rewrite orb_true_r|].
  rewrite sapp_cons in H. simpl in *.
  apply andb_true_iff in H as [Hcd Hq].
  apply Ascii.eqb_eq in Hcd as ->. rewrite Ascii.eqb_refl. simpl.
  by apply IH.
Qed.

Lemma tails_self p : p <> "" -> p ∈ tails p.
Proof. destruct p; [done|]. intros _. left. Qed.

Lemma tails_tail c q p : String c q ∈ tails p -> q <> "" -> q ∈ tails p.
Proof.
  intros Hin Hq. induction p as [|a p IH]; [by apply elem_of_nil in Hin|].
  simpl in Hin. apply elem_of_cons in Hin as [[= -> ->]|Hin].
  - right. by apply tails_self.
  - right. by apply IH.
Qed.

Lemma contains_sapp_new p new out :
  contains p (new +:+ out) = true ->
  (exists u, u ∈ tails new /\ startswith p (u +:+ out) = true) \/
  contains p out = true.
Proof.
  induction new as [|c new IH]; [by right|].
  rewrite sapp_cons. intros H.
  change (startswith p (String c (new +:+ out)) || contains p (new +:+ out) = true) in H.
  apply orb_true_iff in H as [H|H].
  - left. exists (String c new). split; [left|done].
  - destruct (IH H) as [(u & Hu & Hsw)|Hc]; [|by right].
    left. exists u. split; [by right|done].
Qed.

Lemma hits_sapp old p x r : hits old p r = true -> hits old p (x +:+ r) = true.
Proof.
  intros H. induction x as [|c x IH]; [done|].
  rewrite sapp_cons.
  change (startswith p (String c (x +:+ r)) && negb (startswith old (String c (x +:+ r)))
          || hits old p (x +:+ r) = true).
  by rewrite IH, orb_true_r.
Qed.

Lemma hits_contains old p s : hits old p s = true -> contains p s = true.
Proof.
  induction s as [|c s IH]; simpl.
  - rewrite !orb_false_r. by intros [? _]%andb_true_iff.
  - intros [[? _]%andb_true_iff|H]%orb_true_iff.
    + by apply orb_true_iff; left.
    + apply orb_true_iff; right. by apply IH.
Qed.

Lemma hits_self old s : hits old old s = false.
Proof.
  induction s as [|c s IH]; simpl.
  - by destruct (startswith old "").
  - rewrite IH. by destruct (startswith old (String c s)).
Qed.

(** Every occurrence of [p] in the result of a replacement is an occurrence
    of [p] in the text, at a place where [old] does not start. *)
Lemma replace_occurrence old new p s :
  old <> "" -> clash p new = true ->
  contains p (replace old new s) = true -> hits old p s = true.
Proof.
  intros Hold [Hq Hu]%andb_true_iff.
  rewrite forallb_forall in Hq. rewrite forallb_forall in Hu.
  assert (Hq' : forall q rest, q ∈ tails p -> startswith q (new +:+ rest) = false).
  { intros q rest Hin. destruct (startswith q (new +:+ rest)) eqn:Hsw; [|done].
    apply agree_startswith in Hsw. apply list_elem_of_In, Hq in Hin.
    by rewrite Hsw in Hin. }
  assert (Hu' : forall u rest, u ∈ tails new -> startswith p (u +:+ rest) = false).
  { intros u rest Hin. destruct (startswith p (u +:+ rest)) eqn:Hsw; [|done].
    apply agree_startswith in Hsw. apply list_elem_of_In, Hu in Hin.
    by rewrite Hsw in Hin. }
  destruct old as [|a o]; [done|]. unfold replace.
  cut ((forall q, q ∈ tails p ->
          startswith q (replace_from (String a o) new 0 s) = true ->
          startswith q s = true) /\
       (contains p (replace_from (String a o) new 0 s) = true ->
        hits (String a o) p s = true)); [tauto|].
  apply (replace_from_ind (String a o) new
           (fun s out =>
              (forall q, q ∈ tails p -> startswith q out = true -> startswith q s = true) /\
              (contains p out = true -> hits (String a o) p s = true)));
    [done| | |].
  - split; [done|]. simpl. by rewrite !orb_false_r, andb_true_r.
  - intros r out [_ IH]. split.
    + intros q Hin Hsw. by rewrite Hq' in Hsw.
    + intros [(u & Hin & Hsw)|Hc]%contains_sapp_new.
      * by rewrite Hu' in Hsw.
      * by apply hits_sapp, IH.
  - intros c s' out Hmiss [IH1 IH2].
    assert (H1 : forall q, q ∈ tails p -> startswith q (String c out) = true ->
                           startswith q (String c s') = true).
    { intros [|b q] Hin Hsw; [done|]. simpl in *.
      apply andb_true_iff in Hsw as [-> Hsw]. simpl.
      destruct q as [|b' q]; [done|].
      apply IH1; [|done]. by eapply tails_tail. }
    split; [exact H1|].
    intros Hc.
    change (startswith p (String c out) || contains p out = true) in Hc.
    change (startswith p (String c s') && negb (startswith (String a o) (String c s'))
            || hits (String a o) p s' = true).
    apply orb_true_iff in Hc as [Hsw|Hc].
    + rewrite Hmiss. simpl. rewrite andb_true_r.
      destruct p as [|b p]; [done|].
      rewrite H1; [done|left|done].
    + by rewrite IH2, orb_true_r.
Qed.

Lemma replace_keeps_absent old new p s :
  old <> "" -> clash p new = true ->
  contains p s = false -> contains p (replace old new s) = false.
Proof.
  intros Hold Hclash Hs.
  destruct (contains p (replace old new s)) eqn:Hc; [|done].
  apply replace_occurrence, hits_contains in Hc; [|done..].
  by rewrite Hc in Hs.
Qed.

Lemma replace_removes old new s :
  old <> "" -> clash old new = true ->
  contains old (replace old new s) = false.
Proof.
  intros Hold Hclash.
  destruct (contains old (replace old new s)) eqn:Hc; [|done].
  apply replace_occurrence in Hc; [|done..].
  by rewrite hits_self in Hc.
Qed.

End Occurrences.

(** ** Loading the product catalog *)

Section Loader.

(** C2 (amended): the loader returns an empty map, without opening the file,
    when the path does not end in [.json] (in any letter casing) or the file
    is absent.  A file that is present under such a path and that [json.load]
    cannot read makes the loader raise the error of [json.load]; one whose
    top-level value is not an object makes it raise an [AttributeError]. *)
Theorem load_product_map_absent_or_unreadable fs rag_path :
  (endswith ".json" (lower rag_path) = false \/ fs rag_path = Missing ->
   _load_product_map fs rag_path = Ok []) /\
  (endswith ".json" (lower rag_path) = true ->
   forall e, fs rag_path = Present (Raise e) ->
   _load_product_map fs rag_path = Raise e) /\
  (endswith ".json" (lower rag_path) = true ->
   forall doc, fs rag_path = Present (Ok doc) ->
   (forall kvs, doc <> JObj kvs) ->
   _load_product_map fs rag_path = Raise AttributeError).
Proof.
  unfold _load_product_map, path_exists, _load_json.
  split; [|split].
  - intros [-> | ->]; [done|]. by rewrite orb_true_r.
  - intros -> e ->. reflexivity.
  - intros -> doc -> Hdoc. simpl.
    destruct doc; try reflexivity. by destruct (Hdoc kvs).
Qed.

Lemma load_product_map_absent_or_unreadable_witness :
  _load_product_map (fun _ => Missing) "bank.json" = Ok [] /\
  _load_product_map (fun _ => Present (Ok (JObj []))) "catalog.txt" = Ok [] /\
  _load_product_map (fun _ => Present (Raise JSONDecodeError)) "Bank.JSON"
  = Raise JSONDecodeError.
Proof.
  split; [|split].
  - apply (proj1 (load_product_map_absent_or_unreadable (fun _ => Missing) "bank.json")).
    by right.
  - apply (proj1 (load_product_map_absent_or_unreadable
                    (fun _ => Present (Ok (JObj []))) "catalog.txt")).
    by left.
  - by apply (proj1 (proj2 (load_product_map_absent_or_unreadable
                    (fun _ => Present (Raise JSONDecodeError)) "Bank.JSON"))).
Defined.

(** C2, as stated, fails for a malformed catalog: a file [bank.json] that is
    not valid JSON, or that holds a list instead of an object, or whose
    [accounts] entry is a number, makes the loader raise. *)
Lemma load_product_map_malformed_raises :
  _load_product_map (fun _ => Present (Raise JSONDecodeError)) "bank.json"
  = Raise JSONDecodeError /\
  _load_product_map (fun _ => Present (Ok (JArr []))) "bank.json"
  = Raise AttributeError /\
  _load_product_map (fun _ => Present (Ok (JObj [("accounts", JInt 3)]))) "bank.json"
  = Raise TypeError /\
  _load_product_map (fun _ => Present (Ok (JObj [("accounts", JArr [JStr "asaan"])])))
    "bank.json"
  = Raise AttributeError.
Proof. repeat split. Qed.

(** A well-formed catalog, for comparison. *)
Example load_product_map_catalog :
  _load_product_map
    (fun _ => Present (Ok (JObj [("accounts",
       JArr [JObj [("id", JStr "asaan_account"); ("name", JStr "Asaan Account")];
             JObj [("id", JStr "draft")];
             JObj [("id", JStr "asaan_account"); ("name", JStr "Asaan")]])])))
    "bank.json"
  = Ok [(JStr "asaan_account", JStr "Asaan")].
Proof. reflexivity. Qed.

End Loader.

(** ** Normalisation is idempotent *)

Section Idempotence.

Lemma stt_fixes_unfold text :
  _apply_stt_fixes text
  = replace "a san" "asaan" (replace "a/c" "account" (replace "a count" "account" text)).
Proof. reflexivity. Qed.

(** No source of the table occurs in a text to which its fixes have been
    applied. *)
Lemma stt_fixes_sources text :
  Forall (fun st => contains (fst st) (_apply_stt_fixes text) = false) _STT_FIXES.
Proof.
  rewrite stt_fixes_unfold.
  set (y1 := replace "a count" "account" text).
  set (y2 := replace "a/c" "account" y1).
  assert (H11 : contains "a count" y1 = false) by by apply replace_removes.
  assert (H12 : contains "a count" y2 = false) by by apply replace_keeps_absent.
  assert (H22 : contains "a/c" y2 = false) by by apply replace_removes.
  repeat constructor; cbn [fst].
  - by apply replace_keeps_absent.
  - by apply replace_keeps_absent.
  - by apply replace_removes.
Qed.

Lemma stt_fixes_absent text :
  Forall (fun st => contains (fst st) text = false) _STT_FIXES ->
  _apply_stt_fixes text = text.
Proof.
  unfold _apply_stt_fixes.
  induction 1 as [|st fixes Hst _ IH]; [done|].
  simpl. by rewrite replace_absent.
Qed.

Lemma stt_fixes_idem text :
  _apply_stt_fixes (_apply_stt_fixes text) = _apply_stt_fixes text.
Proof. apply stt_fixes_absent, stt_fixes_sources. Qed.

Lemma stt_fixes_tidy text : tidy (_apply_stt_fixes text) = tidy text.
Proof.
  rewrite stt_fixes_unfold.
  rewrite !tidy_replace; try done; by intros [].
Qed.

Lemma stt_fixes_lowered text :
  is_lowered text = true -> is_lowered (_apply_stt_fixes text) = true.
Proof.
  intros H. rewrite stt_fixes_unfold.
  by repeat apply is_lowered_replace.
Qed.

Lemma normalize_tidy text : tidy (normalize text) = true.
Proof. unfold normalize. by rewrite stt_fixes_tidy, tidy_lower, tidy_clean. Qed.

Lemma normalize_lowered text : is_lowered (normalize text) = true.
Proof. unfold normalize. apply stt_fixes_lowered, is_lowered_lower. Qed.

(** C4: normalisation (trim, collapse whitespace runs to single spaces,
    lower-case, then the STT fixes in table order) is idempotent; it is the
    text that [_normalize_transcript] returns when no product group is
    configured. *)
Theorem normalize_idempotent :
  (forall x, normalize (normalize x) = normalize x) /\
  (forall x product_map,
     _normalize_transcript x [] product_map = (normalize x, None)) /\
  (forall x,
     normalize x
     = replace "a san" "asaan"
         (replace "a/c" "account"
            (replace "a count" "account"
               (lower (join " " (split (strip x))))))).
Proof.
  split; [|by split].
  intros x. unfold normalize at 1.
  rewrite (clean_fixed _ (normalize_tidy x)).
  rewrite (is_lowered_fixed _ (normalize_lowered x)).
  unfold normalize. apply stt_fixes_idem.
Qed.

End Idempotence.

(** ** Product resolution *)

Section Resolve.

Implicit Types product_map : gmap string string.

Lemma scan_variants_spec lowered canonical variants rest product_map :
  scan_variants lowered canonical variants rest product_map
  = if existsb (fun variant => contains (lower variant) lowered) rest
    then Some (resolved lowered (canonical, variants) product_map)
    else None.
Proof.
  induction rest as [|v rest IH]; [done|].
  simpl. destruct (contains (lower v) lowered); [done|apply IH].
Qed.

Lemma scan_groups_skip lowered pre groups product_map :
  Forall (fun group => group_matches lowered group = false) pre ->
  scan_groups lowered (pre ++ groups) product_map
  = scan_groups lowered groups product_map.
Proof.
  induction 1 as [|[canonical variants] pre Hhd _ IH]; [done|].
  simpl. rewrite scan_variants_spec.
  unfold group_matches in Hhd. simpl in Hhd. by rewrite Hhd.
Qed.

Lemma scan_groups_hit lowered group groups product_map :
  group_matches lowered group = true ->
  scan_groups lowered (group :: groups) product_map
  = resolved lowered group product_map.
Proof.
  destruct group as [canonical variants]. unfold group_matches. simpl.
  intros H. by rewrite scan_variants_spec, H.
Qed.

(** C5: when the normalised text contains a variant of each of two groups,
    and of no group declared before them, the group declared first is
    selected, whatever the positions of the variants in the text; the groups
    after it are not looked at: the result is the one obtained with that
    group alone. *)
Theorem resolve_earlier_group_wins text pre g1 mid g2 post product_map :
  let lowered := normalize text in
  Forall (fun group => group_matches lowered group = false) pre ->
  group_matches lowered g1 = true ->
  group_matches lowered g2 = true ->
  _normalize_transcript text (pre ++ g1 :: mid ++ g2 :: post) product_map
  = (rewrite_variants (snd g1) (display_name product_map (fst g1)) lowered,
     Some (display_name product_map (fst g1))) /\
  _normalize_transcript text (pre ++ g1 :: mid ++ g2 :: post) product_map
  = _normalize_transcript text [g1] product_map.
Proof.
  intros lowered Hpre H1 _.
  unfold _normalize_transcript. fold (clean text). fold (normalize text).
  fold lowered.
  rewrite scan_groups_skip by done.
  by rewrite !scan_groups_hit.
Qed.

Lemma resolve_earlier_group_wins_witness :
  _normalize_transcript "Current account or ASAAN a/c"
    ([("islamic_savings", ["savings"])] ++
     ("asaan_account", ["asaan account"; "asaan"]) ::
     [("roshan", ["roshan digital"])] ++
     ("current_account", ["current account"]) :: [])
    ∅
  = ("current account or asaan account account", Some "Asaan Account").
Proof.
  refine (proj1 (resolve_earlier_group_wins "Current account or ASAAN a/c"
                   [("islamic_savings", ["savings"])]
                   ("asaan_account", ["asaan account"; "asaan"])
                   [("roshan", ["roshan digital"])]
                   ("current_account", ["current account"]) [] ∅ _ _ _));
    [by repeat constructor | reflexivity | reflexivity].
Defined.

End Resolve.

(** ** A synonym as the whole text *)

Section SynonymAlone.

Implicit Types product_map : gmap string string.

Lemma rewrite_variants_absent variants product_name text :
  Forall (fun v => contains (lower v) text = false) variants ->
  rewrite_variants variants product_name text = text.
Proof.
  unfold rewrite_variants.
  induction 1 as [|v variants Hv _ IH]; [done|].
  simpl. by rewrite replace_absent.
Qed.

Lemma rewrite_variants_app vs1 vs2 product_name text :
  rewrite_variants (vs1 ++ vs2) product_name text
  = rewrite_variants vs2 product_name (rewrite_variants vs1 product_name text).
Proof. unfold rewrite_variants. apply fold_left_app. Qed.

Lemma group_matches_variant s key vs1 vs2 :
  group_matches (lower s) (key, vs1 ++ s :: vs2) = true.
Proof.
  unfold group_matches. apply existsb_exists. exists s. split.
  - apply in_or_app. right. by left.
  - apply contains_refl.
Qed.

(** C3 (amended): let [s] be a variant of a configured group such that
    normalisation leaves its lower-cased form unchanged and no variant of a
    group declared earlier occurs in it.  Then the text [s], in any letter
    casing, resolves the display name of that group, and the text returned is
    the lower-cased [s] in which the variants of the group have been replaced,
    in list order, by the lower-cased display name.  This is the lower-cased
    display name itself when no variant listed before [s] occurs in [s] and
    no variant listed after it occurs in the lower-cased display name. *)
Theorem synonym_alone_resolves_group x s key vs1 vs2 pre post product_map :
  let variants := vs1 ++ s :: vs2 in
  let d := display_name product_map key in
  let result :=
    _normalize_transcript x (pre ++ (key, variants) :: post) product_map in
  lower x = lower s ->
  normalize s = lower s ->
  Forall (fun group => group_matches (lower s) group = false) pre ->
  result = (rewrite_variants variants d (lower s), Some d) /\
  (Forall (fun v => contains (lower v) (lower s) = false) vs1 ->
   Forall (fun v => contains (lower v) (lower d) = false) vs2 ->
   result = (lower d, Some d)).
Proof.
  intros variants d result Hx Hs Hpre.
  assert (Hres : result = (rewrite_variants variants d (lower s), Some d)).
  { subst result. unfold _normalize_transcript.
    fold (clean x). fold (normalize x).
    rewrite (normalize_casing x s Hx), Hs.
    rewrite scan_groups_skip by done.
    rewrite scan_groups_hit by apply group_matches_variant.
    reflexivity. }
  split; [exact Hres|].
  intros H1 H2. rewrite Hres. f_equal.
  subst variants. rewrite rewrite_variants_app.
  rewrite (rewrite_variants_absent vs1) by done.
  change (rewrite_variants (s :: vs2) d (lower s)) with
    (rewrite_variants vs2 d (replace (lower s) (lower d) (lower s))).
  rewrite replace_self. by apply rewrite_variants_absent.
Qed.

Lemma synonym_alone_resolves_group_witness :
  _normalize_transcript "Asaan PLUS"
    ([("current_account", ["current"])] ++
     ("asaan_plus", ["asaan digital"] ++ "asaan plus" :: ["plus digital"]) ::
     [("asaan_account", ["asaan"])])
    (<["asaan_plus" := "Asaan Plus Account"]> ∅)
  = ("asaan plus account", Some "Asaan Plus Account").
Proof.
  refine (proj2 (synonym_alone_resolves_group "Asaan PLUS" "asaan plus" "asaan_plus"
                   ["asaan digital"] ["plus digital"]
                   [("current_account", ["current"])]
                   [("asaan_account", ["asaan"])]
                   (<["asaan_plus" := "Asaan Plus Account"]> ∅) _ _ _) _ _);
    try reflexivity; by repeat constructor.
Defined.

(** C3, as stated, fails.  A variant of a later group that contains a
    variant of an earlier group resolves the earlier group; a variant that
    the STT fixes rewrite resolves no product; and a variant that contains
    another variant of its own group is not rewritten to the display name. *)
Lemma synonym_alone_not_always_resolved :
  (_normalize_transcript "asaan plus"
     [("asaan_account", ["asaan"]); ("asaan_plus", ["asaan plus"])] ∅
   = ("asaan account plus", Some "Asaan Account") /\
   display_name ∅ "asaan_plus" = "Asaan Plus") /\
  _normalize_transcript "a/c" [("current_account", ["a/c"])] ∅
  = ("account", None) /\
  (_normalize_transcript "asaan account"
     [("asaan_account", ["asaan account"; "asaan"])] ∅
   = ("asaan account account", Some "Asaan Account")).
Proof. repeat split. Qed.

End SynonymAlone.

(** ** Intent detection *)

Section DetectIntent.

Lemma scan_keywords_existsb text keywords :
  scan_keywords text keywords
  = existsb (fun keyword => contains (lower keyword) text) keywords.
Proof.
  induction keywords as [|k ks IH]; [reflexivity|].
  simpl. rewrite IH. by destruct (contains (lower k) text).
Qed.

Lemma detect_intent_find text cfg :
  _detect_intent text cfg = fst <$> List.find (intent_matches text) cfg.
Proof.
  induction cfg as [|[intent keywords] cfg IH]; [reflexivity|].
  simpl. unfold intent_matches at 1. simpl.
  rewrite scan_keywords_existsb.
  by destruct (existsb _ keywords).
Qed.

Lemma detect_intent_skip text pre cfg :
  Forall (fun entry => intent_matches text entry = false) pre ->
  _detect_intent text (pre ++ cfg) = _detect_intent text cfg.
Proof.
  induction 1 as [|[intent keywords] pre Hhd _ IH]; [reflexivity|].
  simpl. unfold intent_matches in Hhd. simpl in Hhd.
  by rewrite scan_keywords_existsb, Hhd.
Qed.

Lemma detect_intent_hit text intent keywords cfg :
  intent_matches text (intent, keywords) = true ->
  _detect_intent text ((intent, keywords) :: cfg) = Some intent.
Proof.
  unfold intent_matches. simpl. intros H.
  by rewrite scan_keywords_existsb, H.
Qed.

(** C6: [_detect_intent] returns the first intent, in configuration order,
    one of whose keywords (lower-cased) is a substring of the text; an intent
    declared earlier wins over a later one whatever the positions of their
    keywords in the text; the result is [None] when no keyword matches. *)
Theorem detect_intent_first_match :
  (forall text cfg,
     _detect_intent text cfg = fst <$> List.find (intent_matches text) cfg) /\
  (forall text pre a ka mid b kb post,
     Forall (fun entry => intent_matches text entry = false) pre ->
     intent_matches text (a, ka) = true ->
     intent_matches text (b, kb) = true ->
     _detect_intent text (pre ++ (a, ka) :: mid ++ (b, kb) :: post) = Some a) /\
  (forall text cfg,
     Forall (fun entry => intent_matches text entry = false) cfg ->
     _detect_intent text cfg = None).
Proof.
  split; [exact detect_intent_find|]. split.
  - intros text pre a ka mid b kb post Hpre Ha _.
    rewrite detect_intent_skip by done. by apply detect_intent_hit.
  - intros text cfg Hcfg.
    rewrite <- (app_nil_r cfg) at 1. by rewrite detect_intent_skip.
Qed.

Lemma detect_intent_first_match_witness :
  _detect_intent "account then loan" [("A", ["Loan"]); ("B", ["account"])] = Some "A".
Proof.
  apply (proj1 (proj2 detect_intent_first_match)
           "account then loan" [] "A" ["Loan"] [] "B" ["account"] []);
    [constructor | reflexivity | reflexivity].
Defined.

End DetectIntent.

(** ** An empty keyword *)

Section EmptyKeyword.

Lemma intent_matches_empty_keyword text intent keywords :
  In "" keywords -> intent_matches text (intent, keywords) = true.
Proof.
  intros Hin. unfold intent_matches. apply existsb_exists.
  exists "". split; [done|]. apply contains_nil.
Qed.

(** C10: when the keyword list of an intent contains the empty string,
    [_detect_intent] returns an intent for every text, and the intent returned
    is declared no later than that one. *)
Theorem detect_intent_empty_keyword text pre intent keywords post :
  In "" keywords ->
  exists pre' found kws post',
    pre ++ (intent, keywords) :: post = pre' ++ (found, kws) :: post' /\
    length pre' <= length pre /\
    _detect_intent text (pre ++ (intent, keywords) :: post) = Some found.
Proof.
  intros Hin. induction pre as [|[i0 k0] pre IH].
  - exists [], intent, keywords, post. repeat split; [simpl; lia|].
    apply detect_intent_hit. by apply intent_matches_empty_keyword.
  - destruct (scan_keywords text k0) eqn:Hk0.
    + exists [], i0, k0, (pre ++ (intent, keywords) :: post).
      repeat split; [simpl; lia|]. simpl. by rewrite Hk0.
    + destruct IH as (pre' & found & kws & post' & Heq & Hlen & Hdet).
      exists ((i0, k0) :: pre'), found, kws, post'. repeat split.
      * simpl. by rewrite Heq.
      * simpl. lia.
      * simpl. by rewrite Hk0.
Qed.

Lemma detect_intent_empty_keyword_witness :
  In "" ["balance"; ""] /\
  exists pre' found kws post',
    [("loan", ["loan"])] ++ ("enquiry", ["balance"; ""]) :: [("other", ["x"])]
      = pre' ++ (found, kws) :: post' /\
    length pre' <= length [("loan", ["loan"])] /\
    _detect_intent "hello there"
      ([("loan", ["loan"])] ++ ("enquiry", ["balance"; ""]) :: [("other", ["x"])])
      = Some found.
Proof.
  split; [simpl; tauto|].
  apply (detect_intent_empty_keyword "hello there" [("loan", ["loan"])]
           "enquiry" ["balance"; ""] [("other", ["x"])]).
  simpl; tauto.
Defined.

End EmptyKeyword.

(** ** Retrieval query *)

Section Query.

Lemma dedupe_elem seen items t :
  t ∈ dedupe seen items ->
  (lower t ∉ seen) /\ truthy t = true /\ exists item, item ∈ items /\ t = strip item.
Proof.
  revert seen. induction items as [|item items IH]; intros seen Ht.
  - by apply elem_of_nil in Ht.
  - simpl in Ht.
    destruct (truthy (strip item)) eqn:Htok; simpl in Ht;
      [destruct (bool_decide (lower (strip item) ∉ seen)) eqn:Hkey|].
    + apply bool_decide_eq_true in Hkey.
      apply elem_of_cons in Ht as [->|Ht].
      * repeat split; [done..|]. exists item. split; [left|done].
      * destruct (IH _ Ht) as (Hns & Htr & item' & Hin & ->).
        repeat split; [|done|].
        { intros Hin'. apply Hns, elem_of_union. by right. }
        exists item'. split; [by right|done].
    + destruct (IH _ Ht) as (Hns & Htr & item' & Hin & ->).
      repeat split; [done..|]. exists item'. split; [by right|done].
    + destruct (IH _ Ht) as (Hns & Htr & item' & Hin & ->).
      repeat split; [done..|]. exists item'. split; [by right|done].
Qed.

Lemma dedupe_NoDup seen items : NoDup (lower <$> dedupe seen items).
Proof.
  revert seen. induction items as [|item items IH]; intros seen.
  - constructor.
  - simpl.
    destruct (truthy (strip item) && bool_decide (lower (strip item) ∉ seen));
      [|apply IH].
    rewrite fmap_cons. apply NoDup_cons. split; [|apply IH].
    intros Hin. apply list_elem_of_fmap in Hin as (t & Heq & Ht).
    apply dedupe_elem in Ht as (Hns & _). rewrite <- Heq in Hns.
    apply Hns, elem_of_union. left. by apply elem_of_singleton.
Qed.

Lemma dedupe_first seen pre item post :
  truthy (strip item) = true ->
  lower (strip item) ∉ seen ->
  (forall x, x ∈ pre -> lower (strip x) <> lower (strip item)) ->
  strip item ∈ dedupe seen (pre ++ item :: post).
Proof.
  intros Htok. revert seen.
  induction pre as [|x pre IH]; intros seen Hns Hpre; simpl.
  - rewrite Htok. rewrite bool_decide_eq_true_2 by done. simpl. left.
  - destruct (truthy (strip x) && bool_decide (lower (strip x) ∉ seen)).
    + right. apply IH.
      * assert (Hne : lower (strip x) <> lower (strip item)) by (apply Hpre; left).
        intros [Heq%elem_of_singleton|Hin]%elem_of_union; [by symmetry in Heq|done].
      * intros y Hy. apply Hpre. by right.
    + apply IH; [done|]. intros y Hy. apply Hpre. by right.
Qed.

(** C8: the terms joined into the query are pairwise different when
    compared case-insensitively; none is empty or made of whitespace only;
    each is a candidate term, trimmed; and the first candidate of every
    case-insensitive class is the one kept, in its own casing. *)
Theorem query_terms_distinct_nonblank text product_name intent intent_keywords :
  let terms := query_terms text product_name intent intent_keywords in
  let cands := candidates text product_name intent intent_keywords in
  _build_retrieval_query text product_name intent intent_keywords = join " " terms /\
  NoDup (lower <$> terms) /\
  Forall (fun t => t <> "" /\ strip t <> "") terms /\
  Forall (fun t => exists item, item ∈ cands /\ t = strip item) terms /\
  (forall pre item post,
     cands = pre ++ item :: post ->
     strip item <> "" ->
     (forall x, x ∈ pre -> lower (strip x) <> lower (strip item)) ->
     strip item ∈ terms).
Proof.
  intros terms cands. subst terms. unfold query_terms. fold cands.
  split; [reflexivity|]. split; [apply dedupe_NoDup|].
  split; [|split].
  - apply Forall_forall. intros t Ht.
    apply dedupe_elem in Ht as (_ & Htr & item & _ & ->).
    rewrite strip_strip. by apply truthy_true in Htr.
  - apply Forall_forall. intros t Ht.
    by apply dedupe_elem in Ht as (_ & _ & Hitem).
  - intros pre item post -> Hne Hpre.
    apply dedupe_first; [by apply truthy_true|apply not_elem_of_empty|done].
Qed.

Lemma query_terms_distinct_nonblank_witness :
  "Features" ∈
    query_terms " Features " None (Some "loan") [("loan", ["features"; "LOAN"])].
Proof.
  refine (proj2 (proj2 (proj2 (proj2
            (query_terms_distinct_nonblank " Features " None (Some "loan")
               [("loan", ["features"; "LOAN"])]))))
            [] " Features " _ _ _ _);
    [reflexivity | discriminate | intros x Hx; by apply elem_of_nil in Hx].
Defined.

Lemma dedupe_nonempty seen items x :
  x ∈ items -> truthy (strip x) = true -> lower (strip x) ∉ seen ->
  dedupe seen items <> [].
Proof.
  intros Hin Htok Hns. induction items as [|item items IH].
  - by apply elem_of_nil in Hin.
  - simpl.
    destruct (truthy (strip item) && bool_decide (lower (strip item) ∉ seen)) eqn:Hk;
      [done|].
    apply IH. apply elem_of_cons in Hin as [->|Hin]; [|done].
    rewrite Htok, bool_decide_eq_true_2 in Hk by done. discriminate.
Qed.

Lemma candidates_generic text product_name intent intent_keywords :
  "features" ∈ candidates text product_name intent intent_keywords.
Proof.
  unfold candidates. apply elem_of_app. right.
  assert (Hg : forall extra, "features" ∈ generic_expansion ++ extra)
    by (intros extra; apply elem_of_app; left; left).
  destruct intent as [i|]; [|apply (Hg [])].
  destruct (truthy i); [|apply (Hg [])].
  destruct (odict_get i intent_keywords); [apply Hg|apply (Hg [])].
Qed.

Lemma join_truthy sep t l : truthy t = true -> truthy (join sep (t :: l)) = true.
Proof. intros Ht. destruct l; simpl; [done|]. by apply truthy_app_l. Qed.

(** C1 (amended): the query is never empty, because the generic expansion
    terms are always candidates; for an empty text, no product and no intent
    it consists of exactly these four terms. *)
Theorem build_query_never_empty :
  (forall intent_keywords,
     _build_retrieval_query "" None None intent_keywords
     = "features eligibility documents process") /\
  (forall text product_name intent intent_keywords,
     _build_retrieval_query text product_name intent intent_keywords <> "").
Proof.
  split; [reflexivity|].
  intros text product_name intent intent_keywords.
  unfold _build_retrieval_query, query_terms.
  pose proof (candidates_generic text product_name intent intent_keywords) as Hin.
  destruct (dedupe ∅ (candidates text product_name intent intent_keywords))
    as [|t l] eqn:Hd.
  - by eapply dedupe_nonempty in Hd; [|exact Hin|reflexivity|apply not_elem_of_empty].
  - apply truthy_true, join_truthy.
    assert (Ht : t ∈ dedupe ∅ (candidates text product_name intent intent_keywords))
      by (rewrite Hd; left).
    by apply dedupe_elem in Ht as (_ & Htr & _).
Qed.

(** C1, as stated, fails: with every input empty the query is not empty. *)
Lemma build_query_empty_inputs_not_empty :
  _build_retrieval_query "" None None [] = "features eligibility documents process" /\
  _build_retrieval_query "" None None [] <> "".
Proof. split; [reflexivity|discriminate]. Qed.

End Query.

(** ** Fallback selection *)

Section Fallback.

Implicit Types fallbacks : gmap string string.

Lemma or_else_truthy a b : truthy b = true -> truthy (or_else a b) = true.
Proof.
  intros Hb. unfold or_else. destruct a as [v|]; [|done].
  by destruct (truthy v) eqn:Hv.
Qed.

Lemma or_else_insert_empty fallbacks k j b :
  or_else (<[k := ""]> fallbacks !! j) b = or_else (delete k fallbacks !! j) b.
Proof.
  destruct (decide (k = j)) as [->|Hne].
  - by rewrite lookup_insert_eq, lookup_delete_eq.
  - by rewrite lookup_insert_ne, lookup_delete_ne.
Qed.

Lemma or_else_set a v b : a = Some v -> v <> "" -> or_else a b = v.
Proof. intros -> Hv. simpl. by destruct v. Qed.

Lemma or_else_unset a b : a = None \/ a = Some "" -> or_else a b = b.
Proof. by intros [-> | ->]. Qed.

Lemma fallback_rules text product_name intent fallbacks :
  let r := _fallback_response text product_name intent fallbacks in
  let account :=
    contains "account" text = true \/ intent = Some "account_benefits" \/
    intent = Some "account_opening" in
  let no_product := product_name = None \/ product_name = Some "" in
  (account /\ no_product ->
   r = or_else (fallbacks !! "clarify_account")
         (or_else (fallbacks !! "handoff") default_reply)) /\
  (~ (account /\ no_product) -> intent = Some "account_opening" ->
   r = or_else (fallbacks !! "general_opening")
         (or_else (fallbacks !! "handoff") default_reply)) /\
  (~ (account /\ no_product) -> intent <> Some "account_opening" ->
   r = or_else (fallbacks !! "handoff") default_reply).
Proof.
  intros r account no_product. subst r. unfold _fallback_response.
  assert (Ha : contains "account" text ||
               bool_decide (intent = Some "account_benefits" \/
                            intent = Some "account_opening") = true <-> account).
  { subst account. rewrite orb_true_iff, bool_decide_eq_true. tauto. }
  assert (Hp : negb (truthy_opt product_name) = true <-> no_product).
  { subst no_product. destruct product_name as [[|c p]|]; simpl; split;
      try done; auto; intros [H|H]; discriminate. }
  destruct (contains "account" text || bool_decide _) eqn:Hacc;
    destruct (negb (truthy_opt product_name)) eqn:Hprod; simpl;
    repeat split; try tauto;
    try (intros Hn; exfalso; apply Hn; split; [by apply Ha|by apply Hp]);
    try (intros [Hx Hy]; apply Ha in Hx; apply Hp in Hy; discriminate);
    try (intros _ Hi; by rewrite (bool_decide_eq_true_2 _ Hi));
    try (intros _ Hi; by rewrite (bool_decide_eq_false_2 _ Hi)).
Qed.

(** C9: the selector always returns a non-empty string; a template set to
    the empty string is treated as an absent one; when every template is
    absent or empty the result is the literal default; and the selector
    follows its chain: the head template of the rule that applies
    (clarify_account when the utterance concerns an account and no product
    was resolved, else general_opening for intent account_opening, else
    none) when it is set to a non-empty string, else the handoff template
    when that is set to a non-empty string, else the literal default. *)
Theorem fallback_nonempty_and_empty_is_absent :
  (forall text product_name intent fallbacks,
     _fallback_response text product_name intent fallbacks <> "") /\
  (forall text product_name intent fallbacks k,
     _fallback_response text product_name intent (<[k := ""]> fallbacks)
     = _fallback_response text product_name intent (delete k fallbacks)) /\
  (forall text product_name intent fallbacks,
     (forall k, fallbacks !! k = None \/ fallbacks !! k = Some "") ->
     _fallback_response text product_name intent fallbacks
     = "Mazrat, main samajh nahi saka.") /\
  (forall text product_name intent fallbacks,
     let r := _fallback_response text product_name intent fallbacks in
     let unset k := fallbacks !! k = None \/ fallbacks !! k = Some "" in
     let account :=
       contains "account" text = true \/ intent = Some "account_benefits" \/
       intent = Some "account_opening" in
     let no_product := product_name = None \/ product_name = Some "" in
     let chain k :=
       (forall v, fallbacks !! k = Some v -> v <> "" -> r = v) /\
       (forall h, unset k -> fallbacks !! "handoff" = Some h -> h <> "" -> r = h) /\
       (unset k -> unset "handoff" -> r = "Mazrat, main samajh nahi saka.") in
     (account /\ no_product -> chain "clarify_account") /\
     (~ (account /\ no_product) -> intent = Some "account_opening" ->
      chain "general_opening") /\
     (~ (account /\ no_product) -> intent <> Some "account_opening" ->
      (forall h, fallbacks !! "handoff" = Some h -> h <> "" -> r = h) /\
      (unset "handoff" -> r = "Mazrat, main samajh nahi saka."))).
Proof.
  split; [|split; [|split]].
  - intros text product_name intent fallbacks. apply truthy_true.
    unfold _fallback_response.
    repeat match goal with |- context [if ?b then _ else _] => destruct b end;
      repeat apply or_else_truthy; reflexivity.
  - intros text product_name intent fallbacks k. unfold _fallback_response.
    by rewrite !or_else_insert_empty.
  - intros text product_name intent fallbacks Hall. unfold _fallback_response.
    rewrite !or_else_unset by apply Hall.
    by repeat match goal with |- context [if ?b then _ else _] => destruct b end.
  - intros text product_name intent fallbacks r unset account no_product chain.
    destruct (fallback_rules text product_name intent fallbacks) as (R1 & R2 & R3).
    assert (Hchain : forall k,
              r = or_else (fallbacks !! k)
                    (or_else (fallbacks !! "handoff") default_reply) -> chain k).
    { intros k Hr. subst chain. simpl. rewrite Hr. repeat split.
      - intros v Hv Hne. by apply or_else_set.
      - intros h Hk Hh Hne. rewrite (or_else_unset _ _ Hk). by apply or_else_set.
      - intros Hk Hh. by rewrite (or_else_unset _ _ Hk), (or_else_unset _ _ Hh). }
    split; [|split].
    + intros H. apply Hchain. by apply R1.
    + intros Hn Hi. apply Hchain. by apply R2.
    + intros Hn Hi. fold r in R3. rewrite (R3 Hn Hi). split.
      * intros h Hh Hne. by apply or_else_set.
      * intros Hh. by rewrite (or_else_unset _ _ Hh).
Qed.

Lemma fallback_nonempty_and_empty_is_absent_witness :
  _fallback_response "open an account" None None
    (<["clarify_account" := ""]> (<["handoff" := "Call us."]> ∅))
  = "Call us.".
Proof.
  refine (proj1 (proj2 (proj1
            (proj2 (proj2 (proj2 fallback_nonempty_and_empty_is_absent))
               "open an account" None None
               (<["clarify_account" := ""]> (<["handoff" := "Call us."]> ∅))) _))
            "Call us." _ _ _).
  - split; [by left|by left].
  - by right.
  - reflexivity.
  - discriminate.
Defined.

(** C7 (amended): with intent ["account_opening"] and a non-empty product
    name the account-clarification rule is skipped, and the result is the
    ["general_opening"] template when it is set to a non-empty string, else
    the ["handoff"] template when that is set to a non-empty string, else the
    literal default. *)
Theorem fallback_account_opening_with_product text product fallbacks :
  product <> "" ->
  let r := _fallback_response text (Some product) (Some "account_opening") fallbacks in
  let unset k := fallbacks !! k = None \/ fallbacks !! k = Some "" in
  (forall v, fallbacks !! "general_opening" = Some v -> v <> "" -> r = v) /\
  (forall h, unset "general_opening" ->
             fallbacks !! "handoff" = Some h -> h <> "" -> r = h) /\
  (unset "general_opening" -> unset "handoff" ->
   r = "Mazrat, main samajh nahi saka.").
Proof.
  intros Hp r unset.
  assert (Hr : r = or_else (fallbacks !! "general_opening")
                     (or_else (fallbacks !! "handoff") default_reply)).
  { subst r. unfold _fallback_response. simpl.
    apply truthy_true in Hp. rewrite Hp. simpl.
    rewrite orb_true_r. reflexivity. }
  rewrite Hr. repeat split.
  - intros v Hv Hne. by apply or_else_set.
  - intros h Hgo Hh Hne. rewrite (or_else_unset _ _ Hgo). by apply or_else_set.
  - intros Hgo Hh. by rewrite (or_else_unset _ _ Hgo), (or_else_unset _ _ Hh).
Qed.

Lemma fallback_account_opening_with_product_witness :
  "Asaan Account" <> "" /\
  _fallback_response "i want to open it" (Some "Asaan Account")
    (Some "account_opening")
    (<["general_opening" := "Visit a branch."]> (<["clarify_account" := "Which account?"]> ∅))
  = "Visit a branch.".
Proof.
  split; [discriminate|].
  refine (proj1 (fallback_account_opening_with_product "i want to open it"
                   "Asaan Account"
                   (<["general_opening" := "Visit a branch."]>
                      (<["clarify_account" := "Which account?"]> ∅)) _)
                "Visit a branch." _ _);
    [discriminate | reflexivity | discriminate].
Defined.

(** C7, as stated, fails when the ["general_opening"] template is set to the
    empty string: the selector returns the ["handoff"] template, not the
    value the template is set to. *)
Lemma fallback_general_opening_set_empty :
  let fallbacks : gmap string string :=
    <["general_opening" := ""]> (<["handoff" := "Please hold."]> ∅) in
  fallbacks !! "general_opening" = Some "" /\
  _fallback_response "open it" (Some "Asaan Account") (Some "account_opening") fallbacks
  = "Please hold." /\
  _fallback_response "open it" (Some "Asaan Account") (Some "account_opening") fallbacks
  <> "".
Proof. repeat split. discriminate. Qed.

End Fallback.

(** ** Further properties of the STT fixes and of normalisation *)

Section SttFixes.

(** After the fixes no misrecognised form of the table is left in the text,
    so that applying the fixes a second time changes nothing. *)
Theorem stt_fixes_clear_sources text :
  contains "a count" (_apply_stt_fixes text) = false /\
  contains "a/c" (_apply_stt_fixes text) = false /\
  contains "a san" (_apply_stt_fixes text) = false /\
  _apply_stt_fixes (_apply_stt_fixes text) = _apply_stt_fixes text.
Proof.
  pose proof (stt_fixes_sources text) as H.
  unfold _STT_FIXES in H.
  apply Forall_cons in H as [H1 H]. apply Forall_cons in H as [H2 H].
  apply Forall_cons in H as [H3 _].
  repeat split; [exact H1|exact H2|exact H3|apply stt_fixes_idem].
Qed.

(** The fixes leave a text unchanged exactly when none of the
    misrecognised forms occurs in it. *)
Theorem stt_fixes_identity_iff text :
  _apply_stt_fixes text = text <->
  contains "a count" text = false /\ contains "a/c" text = false /\
  contains "a san" text = false.
Proof.
  split.
  - intros Heq. pose proof (stt_fixes_sources text) as H.
    rewrite Heq in H. unfold _STT_FIXES in H.
    apply Forall_cons in H as [H1 H]. apply Forall_cons in H as [H2 H].
    by apply Forall_cons in H as [H3 _].
  - intros (H1 & H2 & H3). apply stt_fixes_absent.
    by repeat constructor.
Qed.

Lemma ws_run_no_double_space st s st' :
  ws_run st s = Some st' -> contains "  " s = false.
Proof.
  revert st. induction s as [|c s IH]; intros st Hrun; [done|].
  simpl in Hrun. destruct (ws_step st c) as [st1|] eqn:Hstep; [|done].
  change (startswith "  " (String c s) || contains "  " s = false).
  rewrite (IH _ Hrun), orb_false_r.
  change (startswith "  " (String c s)) with (Ascii.eqb " " c && startswith " " s).
  destruct (Ascii.eqb_spec " " c) as [<-|]; [|done].
  destruct s as [|d s]; [done|].
  change (startswith " " (String d s)) with (Ascii.eqb " " d && true).
  destruct (Ascii.eqb_spec " " d) as [<-|]; [|done].
  destruct (ws_step_space _ _ _ Hstep eq_refl) as (_ & _ & ->).
  simpl in Hrun. done.
Qed.

(** The normalised text, which is what [_normalize_transcript] returns when
    no product group is configured, is left unchanged by [strip], by
    [lower] and by splitting on whitespace and joining with single spaces,
    and it has no two spaces in a row. *)
Theorem normalize_shape text product_map :
  let t := fst (_normalize_transcript text [] product_map) in
  t = normalize text /\
  strip t = t /\ contains "  " t = false /\ lower t = t /\
  join " " (split t) = t.
Proof.
  intros t. subst t. change (fst (_normalize_transcript text [] product_map))
    with (normalize text).
  pose proof (normalize_tidy text) as Ht.
  split; [done|]. split; [by apply tidy_strip|]. split; [|split].
  - unfold tidy in Ht.
    destruct (ws_run AtStart (normalize text)) eqn:Hrun; [|done].
    by eapply ws_run_no_double_space.
  - apply is_lowered_fixed, normalize_lowered.
  - pose proof (clean_fixed _ Ht) as Hc. unfold clean in Hc.
    by rewrite (tidy_strip _ Ht) in Hc.
Qed.

End SttFixes.

(** ** Further properties of product resolution *)

Section ResolveMore.

Implicit Types product_map : gmap string string.

Lemma scan_groups_find lowered groups product_map :
  scan_groups lowered groups product_map
  = match List.find (group_matches lowered) groups with
    | Some group => resolved lowered group product_map
    | None => (lowered, None)
    end.
Proof.
  induction groups as [|[canonical variants] groups IH]; [done|].
  simpl. rewrite scan_variants_spec. unfold group_matches at 1. simpl.
  by destruct (existsb _ variants).
Qed.

Lemma find_none_Forall {A} (f : A -> bool) l :
  List.find f l = None <-> Forall (fun x => f x = false) l.
Proof.
  induction l as [|x l IH]; simpl.
  - split; [constructor|done].
  - destruct (f x) eqn:Hx.
    + split; [done|]. intros H. apply Forall_cons in H as [H _]. congruence.
    + rewrite IH. split; [by constructor|]. intros H. by apply Forall_cons in H as [_ H].
Qed.

(** No product is reported exactly when no variant of any group occurs in
    the normalised text, and then the text is the normalised text itself. *)
Theorem resolve_not_found_iff text groups product_map :
  let r := _normalize_transcript text groups product_map in
  (snd r = None <->
   Forall (fun group => group_matches (normalize text) group = false) groups) /\
  (snd r = None -> fst r = normalize text).
Proof.
  intros r. subst r. unfold _normalize_transcript.
  fold (clean text). fold (normalize text).
  rewrite scan_groups_find, <- find_none_Forall.
  destruct (List.find _ groups) as [g|]; simpl; split; done.
Qed.

Lemma resolve_found text groups product_map t p :
  _normalize_transcript text groups product_map = (t, Some p) ->
  exists canonical variants variant,
    In (canonical, variants) groups /\ In variant variants /\
    contains (lower variant) (normalize text) = true /\
    p = display_name product_map canonical /\
    t = rewrite_variants variants p (normalize text).
Proof.
  unfold _normalize_transcript. fold (clean text). fold (normalize text).
  rewrite scan_groups_find.
  destruct (List.find _ groups) as [[canonical variants]|] eqn:Hfind; [|done].
  apply find_some in Hfind as [Hin Hm].
  unfold group_matches in Hm. simpl in Hm.
  apply existsb_exists in Hm as (variant & Hv & Hc).
  unfold resolved. simpl. intros [= <- <-].
  by exists canonical, variants, variant.
Qed.

(** A product that is reported is the display name of a configured group
    one of whose variants occurs in the normalised text. *)
Theorem resolve_found_configured text groups product_map t p :
  _normalize_transcript text groups product_map = (t, Some p) ->
  exists canonical variants variant,
    In (canonical, variants) groups /\ In variant variants /\
    contains (lower variant) (normalize text) = true /\
    p = display_name product_map canonical /\
    t = rewrite_variants variants p (normalize text).
Proof. apply resolve_found. Qed.

Lemma resolve_found_configured_witness :
  exists canonical variants variant,
    In (canonical, variants)
       [("asaan_account", ["asaan account"; "easy account"])] /\
    In variant variants /\
    contains (lower variant) (normalize "An EASY  a count") = true /\
    "Asaan" = display_name (<["asaan_account" := "Asaan"]> ∅) canonical /\
    "an asaan" = rewrite_variants variants "Asaan" (normalize "An EASY  a count").
Proof.
  apply (resolve_found_configured "An EASY  a count"
           [("asaan_account", ["asaan account"; "easy account"])]
           (<["asaan_account" := "Asaan"]> ∅) "an asaan" "Asaan").
  reflexivity.
Defined.

Lemma is_lowered_replace_empty new s :
  is_lowered new = true -> is_lowered s = true ->
  is_lowered (replace_empty new s) = true.
Proof.
  intros Hnew. induction s as [|c s IH]; [done|]. simpl.
  intros [Hc Hs]%andb_true_iff.
  rewrite is_lowered_sapp, Hnew. simpl. by rewrite Hc, IH.
Qed.

Lemma is_lowered_replace_any old new s :
  is_lowered new = true -> is_lowered s = true ->
  is_lowered (replace old new s) = true.
Proof.
  intros Hnew Hs. destruct old as [|a o].
  - by apply is_lowered_replace_empty.
  - by apply is_lowered_replace.
Qed.

Lemma is_lowered_rewrite_variants variants product_name t :
  is_lowered t = true ->
  is_lowered (rewrite_variants variants product_name t) = true.
Proof.
  unfold rewrite_variants. revert t.
  induction variants as [|v variants IH]; intros t Ht; [done|].
  simpl. apply IH, is_lowered_replace_any; [apply is_lowered_lower|done].
Qed.

(** Lower-casing the text returned by [_normalize_transcript] leaves it
    unchanged, whatever the configuration and the catalog names: the text,
    the variants and the display name all enter it lower-cased. *)
Theorem resolve_text_lowercase text groups product_map :
  lower (fst (_normalize_transcript text groups product_map))
  = fst (_normalize_transcript text groups product_map).
Proof.
  apply is_lowered_fixed.
  unfold _normalize_transcript. fold (clean text). fold (normalize text).
  rewrite scan_groups_find.
  destruct (List.find _ groups) as [g|]; simpl.
  - apply is_lowered_rewrite_variants, normalize_lowered.
  - apply normalize_lowered.
Qed.

Lemma contains_startswith p s : startswith p s = true -> contains p s = true.
Proof. intros H. destruct s; simpl in *; by rewrite H. Qed.

Lemma contains_cons p c s : contains p s = true -> contains p (String c s) = true.
Proof.
  intros H. change (startswith p (String c s) || contains p s = true).
  by rewrite H, orb_true_r.
Qed.

Lemma contains_sapp_r p x s : contains p s = true -> contains p (x +:+ s) = true.
Proof.
  intros H. induction x as [|c x IH]; [done|].
  rewrite sapp_cons. by apply contains_cons.
Qed.

Lemma contains_sapp_l p s x : contains p s = true -> contains p (s +:+ x) = true.
Proof.
  induction s as [|c s IH].
  - simpl. rewrite orb_false_r. destruct p; [|done]. intros _. apply contains_nil.
  - rewrite sapp_cons.
    change (startswith p (String c s) || contains p s = true ->
            startswith p (String c (s +:+ x)) || contains p (s +:+ x) = true).
    intros [Hsw|Hc]%orb_true_iff.
    + apply startswith_inv in Hsw as [r Hr].
      rewrite <- sapp_cons, Hr, sapp_assoc, startswith_app. done.
    + by rewrite IH, orb_true_r.
Qed.

Lemma replace_contains_new old new s :
  contains old s = true -> contains new (replace old new s) = true.
Proof.
  destruct old as [|a o].
  - intros _. unfold replace. apply contains_startswith.
    destruct s; simpl; [apply startswith_refl|apply startswith_app].
  - unfold replace.
    apply (replace_from_ind (String a o) new
             (fun s out => contains (String a o) s = true -> contains new out = true));
      [done|done| |].
    + intros r out _ _. apply contains_startswith, startswith_app.
    + intros c s' out Hmiss IH Hc.
      change (startswith (String a o) (String c s') || contains (String a o) s' = true) in Hc.
      rewrite Hmiss in Hc. by apply contains_cons, IH.
Qed.

Lemma replace_keeps_new old new s :
  contains new s = true -> contains new (replace old new s) = true.
Proof.
  intros Hnew. destruct (contains old s) eqn:Hold.
  - by apply replace_contains_new.
  - by rewrite replace_absent.
Qed.

Lemma rewrite_variants_keeps variants product_name t :
  contains (lower product_name) t = true ->
  contains (lower product_name) (rewrite_variants variants product_name t) = true.
Proof.
  unfold rewrite_variants. revert t.
  induction variants as [|v variants IH]; intros t Ht; [done|].
  simpl. by apply IH, replace_keeps_new.
Qed.

Lemma rewrite_variants_hit variants product_name t v :
  In v variants -> contains (lower v) t = true ->
  contains (lower product_name) (rewrite_variants variants product_name t) = true.
Proof.
  revert t. induction variants as [|u variants IH]; intros t Hin Hv; [done|].
  change (rewrite_variants (u :: variants) product_name t) with
    (rewrite_variants variants product_name
       (replace (lower u) (lower product_name) t)).
  destruct (contains (lower u) t) eqn:Hu.
  - by apply rewrite_variants_keeps, replace_contains_new.
  - rewrite replace_absent by done.
    destruct Hin as [->|Hin]; [congruence|]. by apply IH.
Qed.

Lemma resolved_contains_name text groups product_map t p :
  _normalize_transcript text groups product_map = (t, Some p) ->
  contains (lower p) t = true.
Proof.
  intros H.
  apply resolve_found in H
    as (canonical & variants & variant & _ & Hin & Hc & _ & ->).
  by eapply rewrite_variants_hit.
Qed.

End ResolveMore.

Section ResolvePipeline.

Implicit Types product_map : gmap string string.

(** Whenever a product is reported, its lower-cased name occurs in the text
    that is returned with it. *)
Theorem resolved_text_mentions_product text groups product_map t p :
  _normalize_transcript text groups product_map = (t, Some p) ->
  contains (lower p) t = true.
Proof. apply resolved_contains_name. Qed.

Lemma resolved_text_mentions_product_witness :
  contains (lower "Asaan Account") "open asaan account account" = true.
Proof.
  apply (resolved_text_mentions_product "Open  ASAAN a/c"
           [("asaan_account", ["asaan"])] ∅).
  reflexivity.
Defined.

(** In the pipeline the product name is therefore never a term of its own:
    the query built from the output of [_normalize_transcript] is the query
    built without the product name. *)
Theorem query_ignores_resolved_product text groups product_map intent intent_keywords :
  let r := _normalize_transcript text groups product_map in
  _build_retrieval_query (fst r) (snd r) intent intent_keywords
  = _build_retrieval_query (fst r) None intent intent_keywords.
Proof.
  intros r.
  destruct r as [t [p|]] eqn:Hr; [|done].
  pose proof (resolved_contains_name _ _ _ _ _ Hr) as Hc. simpl.
  unfold _build_retrieval_query, query_terms, candidates.
  by rewrite Hc, andb_false_r.
Qed.

Lemma lstrip_all_space l s : all_space l = true -> lstrip (l +:+ s) = lstrip s.
Proof.
  induction l as [|c l IH]; [done|]. rewrite sapp_cons. simpl.
  intros [Hc Hl]%andb_true_iff. rewrite Hc. by apply IH.
Qed.

Lemma rstrip_all_space r : all_space r = true -> rstrip r = "".
Proof.
  induction r as [|c r IH]; [done|]. simpl.
  intros [Hc Hr]%andb_true_iff. by rewrite IH, Hc.
Qed.

Lemma rstrip_pad s r : all_space r = true -> rstrip (s +:+ r) = rstrip s.
Proof.
  intros Hr. induction s as [|c s IH].
  - by apply rstrip_all_space.
  - rewrite sapp_cons. simpl. by rewrite IH.
Qed.

Lemma lstrip_space_only r : all_space r = true -> lstrip r = "".
Proof.
  induction r as [|c r IH]; [done|]. simpl.
  intros [-> Hr]%andb_true_iff. by apply IH.
Qed.

Lemma strip_pad l s r :
  all_space l = true -> all_space r = true -> strip (l +:+ s +:+ r) = strip s.
Proof.
  intros Hl Hr. unfold strip. rewrite lstrip_all_space by done.
  induction s as [|c s IH].
  - by rewrite sapp_nil_l, lstrip_space_only.
  - rewrite sapp_cons. simpl. destruct (is_space c); [apply IH|].
    rewrite <- sapp_cons. by apply rstrip_pad.
Qed.

Lemma normalize_again x : normalize (normalize x) = normalize x.
Proof.
  unfold normalize at 1.
  rewrite (clean_fixed _ (normalize_tidy x)).
  rewrite (is_lowered_fixed _ (normalize_lowered x)).
  unfold normalize. apply stt_fixes_idem.
Qed.

Lemma normalize_transcript_normalize x groups product_map :
  _normalize_transcript x groups product_map
  = scan_groups (normalize x) groups product_map.
Proof. reflexivity. Qed.

(** The outcome of [_normalize_transcript] does not depend on the letter
    case of the raw text, nor on whitespace around it, and feeding the
    normalised text back gives the same outcome. *)
Theorem resolve_input_insensitive groups product_map :
  (forall x x', lower x = lower x' ->
     _normalize_transcript x groups product_map
     = _normalize_transcript x' groups product_map) /\
  (forall l x r, all_space l = true -> all_space r = true ->
     _normalize_transcript (l +:+ x +:+ r) groups product_map
     = _normalize_transcript x groups product_map) /\
  (forall x,
     _normalize_transcript (normalize x) groups product_map
     = _normalize_transcript x groups product_map).
Proof.
  split; [|split].
  - intros x x' H. rewrite !normalize_transcript_normalize.
    by rewrite (normalize_casing x x' H).
  - intros l x r Hl Hr. rewrite !normalize_transcript_normalize.
    unfold normalize, clean. by rewrite strip_pad.
  - intros x. rewrite !normalize_transcript_normalize.
    by rewrite normalize_again.
Qed.

Lemma resolve_input_insensitive_witness :
  _normalize_transcript "  ASAAN a/c " [("asaan_account", ["asaan account"])] ∅
  = _normalize_transcript "asaan a/c" [("asaan_account", ["asaan account"])] ∅.
Proof.
  etransitivity.
  - apply (proj1 (proj2 (resolve_input_insensitive
                           [("asaan_account", ["asaan account"])] ∅))
             "  " "ASAAN a/c" " "); reflexivity.
  - apply (proj1 (resolve_input_insensitive
                    [("asaan_account", ["asaan account"])] ∅)).
    reflexivity.
Defined.

Lemma rewrite_variants_lower variants product_name t :
  rewrite_variants (map lower variants) product_name t
  = rewrite_variants variants product_name t.
Proof.
  unfold rewrite_variants. revert t.
  induction variants as [|v variants IH]; intros t; [done|].
  simpl. by rewrite lower_lower, IH.
Qed.

Lemma group_matches_lower t canonical variants :
  group_matches t (canonical, map lower variants) = group_matches t (canonical, variants).
Proof.
  unfold group_matches. simpl.
  induction variants as [|v variants IH]; [done|].
  simpl. by rewrite lower_lower, IH.
Qed.

(** Letter case in the configuration is irrelevant: lower-casing every
    product variant, or every intent keyword, changes neither the product
    resolution nor the intent detected. *)
Theorem config_case_insensitive :
  (forall text groups product_map,
     _normalize_transcript text (lower_config groups) product_map
     = _normalize_transcript text groups product_map) /\
  (forall text intent_keywords,
     _detect_intent text (lower_config intent_keywords)
     = _detect_intent text intent_keywords).
Proof.
  split.
  - intros text groups product_map. rewrite !normalize_transcript_normalize.
    generalize (normalize text). intros t.
    induction groups as [|[canonical variants] groups IH]; [done|].
    simpl. rewrite !scan_variants_spec.
    pose proof (group_matches_lower t canonical variants) as Hm.
    unfold group_matches in Hm. simpl in Hm. rewrite Hm.
    unfold resolved. simpl. rewrite rewrite_variants_lower.
    destruct (existsb _ variants); [done|apply IH].
  - intros text intent_keywords.
    induction intent_keywords as [|[intent keywords] cfg IH]; [done|].
    simpl. rewrite !scan_keywords_existsb.
    pose proof (group_matches_lower text intent keywords) as Hm.
    unfold group_matches in Hm. simpl in Hm. rewrite Hm.
    destruct (existsb _ keywords); [done|apply IH].
Qed.

(** A group whose variants include the empty string matches every text, so
    that some product is always reported. *)
Theorem resolve_empty_variant text pre canonical variants post product_map :
  In "" variants ->
  exists p,
    snd (_normalize_transcript text (pre ++ (canonical, variants) :: post) product_map)
    = Some p.
Proof.
  intros Hin. rewrite normalize_transcript_normalize, scan_groups_find.
  destruct (List.find _ _) as [g|] eqn:Hfind; [by eexists|].
  apply find_none_Forall in Hfind.
  apply Forall_app in Hfind as [_ Hfind]. apply Forall_cons in Hfind as [Hm _].
  unfold group_matches in Hm. simpl in Hm.
  assert (Ht : existsb (fun variant => contains (lower variant) (normalize text)) variants = true).
  { apply existsb_exists. exists "". split; [done|apply contains_nil]. }
  congruence.
Qed.

Lemma resolve_empty_variant_witness :
  In "" ["asaan"; ""] /\
  exists p,
    snd (_normalize_transcript "hello"
           ([("current", ["current"])] ++ ("asaan_account", ["asaan"; ""]) :: []) ∅)
    = Some p.
Proof.
  split; [simpl; tauto|].
  apply (resolve_empty_variant "hello" [("current", ["current"])]
           "asaan_account" ["asaan"; ""] [] ∅).
  simpl; tauto.
Defined.

End ResolvePipeline.

(** ** Further properties of intent detection *)

Section DetectMore.

Lemma contains_trans a b c :
  contains a b = true -> contains b c = true -> contains a c = true.
Proof.
  intros Hab. induction c as [|x c IH].
  - simpl. rewrite orb_false_r. destruct b; [done|discriminate].
  - intros Hbc.
    change (startswith b (String x c) || contains b c = true) in Hbc.
    apply orb_true_iff in Hbc as [Hsw|Hc].
    + apply startswith_inv in Hsw as [r ->]. by apply contains_sapp_l.
    + by apply contains_cons, IH.
Qed.

Lemma intent_matches_mono t t' entry :
  contains t t' = true ->
  intent_matches t entry = true -> intent_matches t' entry = true.
Proof.
  intros Ht. unfold intent_matches.
  intros (k & Hin & Hk)%existsb_exists. apply existsb_exists.
  exists k. split; [done|]. by eapply contains_trans.
Qed.

Lemma detect_intent_some text cfg i :
  _detect_intent text cfg = Some i ->
  exists pre keywords post,
    cfg = pre ++ (i, keywords) :: post /\
    Forall (fun entry => intent_matches text entry = false) pre /\
    intent_matches text (i, keywords) = true.
Proof.
  induction cfg as [|[j kws] cfg IH]; [done|].
  simpl. rewrite scan_keywords_existsb.
  destruct (existsb _ kws) eqn:Hk.
  - intros [= ->]. by exists [], kws, cfg.
  - intros H. destruct (IH H) as (pre & keywords & post & -> & Hpre & Hm).
    exists ((j, kws) :: pre), keywords, post. repeat split; [|done].
    by constructor.
Qed.

(** An intent that is detected is a configured one: an entry with this name
    has a keyword whose lower-cased form occurs in the text, and the lookup
    of the name that [_build_retrieval_query] makes succeeds. *)
Theorem detect_intent_configured text cfg i :
  _detect_intent text cfg = Some i ->
  (exists keywords keyword,
     In (i, keywords) cfg /\ In keyword keywords /\
     contains (lower keyword) text = true) /\
  (exists keywords, odict_get i cfg = Some keywords).
Proof.
  intros H. destruct (detect_intent_some _ _ _ H) as (pre & kws & post & -> & _ & Hm).
  unfold intent_matches in Hm. simpl in Hm.
  apply existsb_exists in Hm as (k & Hin & Hk). split.
  - exists kws, k. repeat split; [|done..]. apply in_or_app. right. by left.
  - clear. induction pre as [|[j kws'] pre IH]; simpl.
    + rewrite String.eqb_refl. by eexists.
    + destruct (String.eqb i j); [by eexists|apply IH].
Qed.

Lemma detect_intent_configured_witness :
  (exists keywords keyword,
     In ("loan", keywords) [("card", ["card"]); ("loan", ["Finance"; "loan"])] /\
     In keyword keywords /\
     contains (lower keyword) "car finance" = true) /\
  (exists keywords,
     odict_get "loan" [("card", ["card"]); ("loan", ["Finance"; "loan"])]
     = Some keywords).
Proof.
  apply (detect_intent_configured "car finance"
           [("card", ["card"]); ("loan", ["Finance"; "loan"])] "loan").
  reflexivity.
Defined.

(** Words added around a text never lose a match: when a text matched by
    an intent occurs inside a longer text, an intent is detected in the
    longer text, and it is declared no later than that one. *)
Theorem detect_intent_monotone t t' pre i keywords post :
  contains t t' = true ->
  intent_matches t (i, keywords) = true ->
  exists pre' j keywords' post',
    pre ++ (i, keywords) :: post = pre' ++ (j, keywords') :: post' /\
    length pre' <= length pre /\
    _detect_intent t' (pre ++ (i, keywords) :: post) = Some j.
Proof.
  intros Ht Hm. apply (intent_matches_mono _ _ _ Ht) in Hm.
  induction pre as [|[i0 k0] pre IH].
  - exists [], i, keywords, post. repeat split; [simpl; lia|].
    by apply detect_intent_hit.
  - destruct (scan_keywords t' k0) eqn:Hk0.
    + exists [], i0, k0, (pre ++ (i, keywords) :: post).
      repeat split; [simpl; lia|]. simpl. by rewrite Hk0.
    + destruct IH as (pre' & j & kws' & post' & Heq & Hlen & Hdet).
      exists ((i0, k0) :: pre'), j, kws', post'. repeat split.
      * simpl. by rewrite Heq.
      * simpl. lia.
      * simpl. by rewrite Hk0.
Qed.

Lemma detect_intent_monotone_witness :
  exists pre' j keywords' post',
    [("card", ["card"])] ++ ("loan", ["loan"]) :: [] = pre' ++ (j, keywords') :: post' /\
    length pre' <= length [("card", ["card"])] /\
    _detect_intent "a loan on my card" ([("card", ["card"])] ++ ("loan", ["loan"]) :: [])
    = Some j.
Proof.
  apply (detect_intent_monotone "loan" "a loan on my card"
           [("card", ["card"])] "loan" ["loan"] []); reflexivity.
Defined.

End DetectMore.

(** ** Blank input *)

Section Blank.

Implicit Types product_map fallbacks : gmap string string.

Lemma normalize_blank x : all_space x = true -> normalize x = "".
Proof.
  intros Hx. unfold normalize, clean, strip.
  by rewrite (lstrip_space_only x Hx).
Qed.

Lemma contains_in_empty k : contains (lower k) "" = true -> k = "".
Proof. by destruct k. Qed.

Lemma no_match_in_empty (cfg : odict (list string)) :
  Forall (fun entry => Forall (fun k => k <> "") (snd entry)) cfg ->
  Forall (fun entry => intent_matches "" entry = false) cfg.
Proof.
  intros H. eapply Forall_impl; [exact H|].
  intros [i kws] Hk. simpl in Hk.
  unfold intent_matches. simpl.
  destruct (existsb _ kws) eqn:He; [|done].
  apply existsb_exists in He as (k & Hin & Hc).
  apply contains_in_empty in Hc as ->.
  rewrite Forall_forall in Hk. by destruct (Hk "" ltac:(by apply list_elem_of_In)).
Qed.

Lemma blank_facts x groups intent_keywords product_map fallbacks :
  all_space x = true ->
  Forall (fun entry => Forall (fun k => k <> "") (snd entry)) groups ->
  Forall (fun entry => Forall (fun k => k <> "") (snd entry)) intent_keywords ->
  _normalize_transcript x groups product_map = ("", None) /\
  _detect_intent "" intent_keywords = None /\
  _build_retrieval_query "" None None intent_keywords
  = "features eligibility documents process" /\
  _fallback_response "" None None fallbacks
  = or_else (fallbacks !! "handoff") "Mazrat, main samajh nahi saka.".
Proof.
  intros Hx Hg Hk. repeat split.
  - rewrite normalize_transcript_normalize, scan_groups_find, (normalize_blank x Hx).
    apply no_match_in_empty in Hg.
    change (Forall (fun group => group_matches "" group = false) groups) in Hg.
    by apply find_none_Forall in Hg as ->.
  - rewrite detect_intent_find.
    apply no_match_in_empty in Hk.
    by apply find_none_Forall in Hk as ->.
Qed.

End Blank.

(** ** Further properties of the retrieval query *)

Section QueryMore.

Lemma dedupe_complete seen items item :
  item ∈ items -> strip item <> "" ->
  lower (strip item) ∈ seen \/ lower (strip item) ∈ lower <$> dedupe seen items.
Proof.
  intros Hin Hne. revert seen.
  induction items as [|x items IH]; intros seen; [by apply elem_of_nil in Hin|].
  simpl. apply elem_of_cons in Hin as [->|Hin].
  - apply truthy_true in Hne. rewrite Hne. simpl.
    destruct (bool_decide (lower (strip x) ∉ seen)) eqn:Hk.
    + right. rewrite ?fmap_cons. left.
    + left. apply bool_decide_eq_false in Hk.
      by destruct (decide (lower (strip x) ∈ seen)).
  - destruct (truthy (strip x) && bool_decide (lower (strip x) ∉ seen)).
    + destruct (IH Hin ({[lower (strip x)]} ∪ seen)) as [Hs|Hd].
      * apply elem_of_union in Hs as [->%elem_of_singleton|Hs]; [|by left].
        right. rewrite ?fmap_cons. left.
      * right. rewrite ?fmap_cons. by right.
    + apply (IH Hin).
Qed.

Lemma dedupe_sublist seen items : sublist (dedupe seen items) (strip <$> items).
Proof.
  revert seen. induction items as [|x items IH]; intros seen; [constructor|].
  simpl.
  destruct (truthy (strip x) && bool_decide (lower (strip x) ∉ seen)).
  - apply sublist_skip, IH.
  - apply sublist_cons, IH.
Qed.

Lemma candidates_parts text product_name intent intent_keywords :
  exists parts extra,
    candidates text product_name intent intent_keywords
    = (if truthy text then [text] else []) ++ parts ++ generic_expansion ++ extra /\
    extra = match intent with
            | Some i =>
                if truthy i then
                  match odict_get i intent_keywords with
                  | Some kws => kws
                  | None => []
                  end
                else []
            | None => []
            end.
Proof.
  exists ((match product_name with
           | Some p =>
               if truthy p && negb (contains (lower p) text) then [p] else []
           | None => []
           end) ++
          (match intent with
           | Some i => if truthy i then [replace "_" " " i] else []
           | None => []
           end)).
  eexists. split; [|reflexivity].
  unfold candidates.
  generalize (if truthy text then [text] else []). intros p0.
  destruct product_name as [p|];
    [destruct (truthy p && negb (contains (lower p) text))|];
    (destruct intent as [i|];
     [destruct (truthy i); [destruct (odict_get i intent_keywords)|]|]);
    rewrite <- ?app_assoc, ?app_nil_r; reflexivity.
Qed.

(** Nothing is lost up to letter case: every candidate term that is not
    blank has its lower-cased trimmed form among those of the query terms.
    This holds for the four generic terms and, for a configured intent, for
    each of its keywords. *)
Theorem query_terms_complete text product_name intent intent_keywords :
  let keys := lower <$> query_terms text product_name intent intent_keywords in
  (forall item,
     item ∈ candidates text product_name intent intent_keywords ->
     strip item <> "" -> lower (strip item) ∈ keys) /\
  (forall g, g ∈ generic_expansion -> g ∈ keys) /\
  (forall i keywords keyword,
     intent = Some i -> i <> "" -> odict_get i intent_keywords = Some keywords ->
     keyword ∈ keywords -> strip keyword <> "" -> lower (strip keyword) ∈ keys).
Proof.
  intros keys.
  assert (H : forall item,
             item ∈ candidates text product_name intent intent_keywords ->
             strip item <> "" -> lower (strip item) ∈ keys).
  { intros item Hin Hne. subst keys. unfold query_terms.
    destruct (dedupe_complete ∅ _ _ Hin Hne) as [He|Hd]; [|done].
    by apply elem_of_empty in He. }
  destruct (candidates_parts text product_name intent intent_keywords)
    as (parts & extra & Hc & Hextra).
  split; [exact H|]. split.
  - intros g Hg.
    assert (Hs : lower (strip g) = g /\ strip g <> "").
    { unfold generic_expansion in Hg.
      repeat (apply elem_of_cons in Hg as [->|Hg]; [by split|]).
      by apply elem_of_nil in Hg. }
    destruct Hs as [Hl Hne]. rewrite <- Hl. apply H; [|done].
    rewrite Hc. apply elem_of_app. right. apply elem_of_app. right.
    apply elem_of_app. by left.
  - intros i keywords keyword -> Hi Hget Hin Hne. apply H; [|done].
    rewrite Hc, Hextra. apply truthy_true in Hi. rewrite Hi, Hget.
    apply elem_of_app. right. apply elem_of_app. right.
    apply elem_of_app. by right.
Qed.

Lemma query_terms_complete_witness :
  "apply online" ∈
    lower <$> query_terms "open account" None (Some "account_opening")
                [("account_opening", ["open"; " Apply Online "])].
Proof.
  refine (proj2 (proj2 (query_terms_complete "open account" None
                          (Some "account_opening")
                          [("account_opening", ["open"; " Apply Online "])]))
            "account_opening" ["open"; " Apply Online "] " Apply Online "
            _ _ _ _ _);
    try reflexivity; try discriminate.
  right. left.
Defined.

(** The query keeps the order of the candidates: its terms are a
    subsequence of the trimmed candidates, and a text that is not blank is
    the first term, so that the query starts with the trimmed text. *)
Theorem query_terms_ordered text product_name intent intent_keywords :
  sublist (query_terms text product_name intent intent_keywords)
          (strip <$> candidates text product_name intent intent_keywords) /\
  (strip text <> "" ->
   (exists rest,
      query_terms text product_name intent intent_keywords = strip text :: rest) /\
   startswith (strip text)
     (_build_retrieval_query text product_name intent intent_keywords) = true).
Proof.
  split; [apply dedupe_sublist|].
  intros Hne.
  destruct (candidates_parts text product_name intent intent_keywords)
    as (parts & extra & Hc & _).
  assert (Ht : truthy text = true) by by destruct text.
  rewrite Ht in Hc.
  assert (Hq : exists rest,
             query_terms text product_name intent intent_keywords = strip text :: rest).
  { unfold query_terms. rewrite Hc. simpl.
    apply truthy_true in Hne. rewrite Hne.
    rewrite bool_decide_eq_true_2 by apply not_elem_of_empty.
    simpl. by eexists. }
  split; [exact Hq|]. destruct Hq as [rest Hq].
  unfold _build_retrieval_query. rewrite Hq.
  destruct rest as [|t rest]; [apply startswith_refl|].
  rewrite join_cons by done. apply startswith_app.
Qed.

Lemma query_terms_ordered_witness :
  startswith (strip " loan  rates ")
    (_build_retrieval_query " loan  rates " None (Some "loan") []) = true.
Proof.
  refine (proj2 (proj2 (query_terms_ordered " loan  rates " None (Some "loan") []) _)).
  discriminate.
Defined.

End QueryMore.

(** ** Further properties of fallback selection *)

Section FallbackMore.

Implicit Types fallbacks : gmap string string.

Lemma fallback_account_chain text product_name intent fallbacks :
  contains "account" text = true \/ intent = Some "account_benefits" \/
    intent = Some "account_opening" ->
  truthy_opt product_name = false ->
  _fallback_response text product_name intent fallbacks
  = or_else (fallbacks !! "clarify_account")
      (or_else (fallbacks !! "handoff") default_reply).
Proof.
  intros Hacc Hp. unfold _fallback_response. rewrite Hp. simpl.
  assert (Ha : contains "account" text ||
               bool_decide (intent = Some "account_benefits" \/
                            intent = Some "account_opening") = true).
  { destruct Hacc as [->|Hi]; [done|].
    rewrite (bool_decide_eq_true_2 _ Hi). apply orb_true_r. }
  by rewrite Ha.
Qed.

(** When the utterance concerns an account (the text contains "account",
    or the intent is account_benefits or account_opening) and no product
    was resolved, the reply is the clarify_account template when it is set
    to a non-empty string, else the handoff template, else the default; the
    general_opening template is not used, even for intent
    account_opening. *)
Theorem fallback_account_without_product text product_name intent fallbacks :
  contains "account" text = true \/ intent = Some "account_benefits" \/
    intent = Some "account_opening" ->
  product_name = None \/ product_name = Some "" ->
  let r := _fallback_response text product_name intent fallbacks in
  (forall v, fallbacks !! "clarify_account" = Some v -> v <> "" -> r = v) /\
  (forall v,
     _fallback_response text product_name intent (<["general_opening" := v]> fallbacks)
     = r) /\
  r = or_else (fallbacks !! "clarify_account")
        (or_else (fallbacks !! "handoff") "Mazrat, main samajh nahi saka.").
Proof.
  intros Hacc Hp r.
  assert (Hp' : truthy_opt product_name = false) by by destruct Hp as [-> | ->].
  subst r. rewrite !fallback_account_chain by done.
  repeat split.
  - intros v Hv Hne. by apply or_else_set.
  - intros v. rewrite fallback_account_chain by done.
    by rewrite !lookup_insert_ne.
Qed.

Lemma fallback_account_without_product_witness :
  _fallback_response "i want to open an account" None None
    {["clarify_account" := "Which account?"]}
  = "Which account?".
Proof.
  refine (proj1 (fallback_account_without_product "i want to open an account"
                   None None {["clarify_account" := "Which account?"]} _ _)
            "Which account?" _ _);
    [by left | by left | reflexivity | discriminate].
Defined.

(** Which templates matter: the reply never depends on a template other
    than clarify_account, general_opening and handoff; it does not depend
    on clarify_account once a product is resolved, nor on general_opening
    unless the intent is account_opening; and it is always the default or
    the value of one of the three templates. *)
Theorem fallback_template_relevance text product_name intent fallbacks :
  let f := _fallback_response text product_name intent in
  (forall k v, k <> "clarify_account" -> k <> "general_opening" -> k <> "handoff" ->
     f (<[k := v]> fallbacks) = f fallbacks) /\
  (truthy_opt product_name = true ->
   forall v, f (<["clarify_account" := v]> fallbacks) = f fallbacks) /\
  (intent <> Some "account_opening" ->
   forall v, f (<["general_opening" := v]> fallbacks) = f fallbacks) /\
  (f fallbacks = "Mazrat, main samajh nahi saka." \/
   fallbacks !! "clarify_account" = Some (f fallbacks) \/
   fallbacks !! "general_opening" = Some (f fallbacks) \/
   fallbacks !! "handoff" = Some (f fallbacks)).
Proof.
  intros f. subst f. unfold _fallback_response. repeat split.
  - intros k v H1 H2 H3. by rewrite !lookup_insert_ne.
  - intros Hp v. rewrite Hp, andb_false_r.
    by rewrite !lookup_insert_ne.
  - intros Hi v. rewrite (bool_decide_eq_false_2 _ Hi).
    by rewrite !lookup_insert_ne.
  - assert (Hor : forall a b c : option string,
               or_else a (or_else b default_reply) = default_reply \/
               a = Some (or_else a (or_else b default_reply)) \/
               b = Some (or_else a (or_else b default_reply))).
    { intros [[|x a]|] [[|y b]|] _; simpl; auto. }
    assert (Hor1 : forall b : option string,
               or_else b default_reply = default_reply \/
               b = Some (or_else b default_reply)).
    { intros [[|y b]|]; simpl; auto. }
    destruct (_ && _).
    + destruct (Hor (fallbacks !! "clarify_account") (fallbacks !! "handoff") None)
        as [H|[H|H]]; auto.
    + destruct (bool_decide _).
      * destruct (Hor (fallbacks !! "general_opening") (fallbacks !! "handoff") None)
          as [H|[H|H]]; auto.
      * destruct (Hor1 (fallbacks !! "handoff")) as [H|H]; auto.
Qed.

Lemma fallback_template_relevance_witness :
  _fallback_response "asaan account fees" (Some "Asaan Account") None
    (<["clarify_account" := "Which account?"]> {["handoff" := "Please hold."]})
  = _fallback_response "asaan account fees" (Some "Asaan Account") None
      {["handoff" := "Please hold."]}.
Proof.
  refine (proj1 (proj2 (fallback_template_relevance "asaan account fees"
                          (Some "Asaan Account") None {["handoff" := "Please hold."]}))
            _ "Which account?").
  reflexivity.
Defined.

End FallbackMore.

(** ** Further properties of the catalog loader *)

Section LoaderMore.

Lemma key_eqb_refl k : hashable k = true -> key_eqb k k = true.
Proof.
  destruct k; simpl; try done; intros _.
  - by destruct b.
  - apply Z.eqb_refl.
  - apply String.eqb_refl.
Qed.

Lemma key_eqb_join k k2 k' :
  key_eqb k k' = true -> key_eqb k2 k' = true -> key_eqb k k2 = true.
Proof.
  destruct k, k2, k'; cbn [key_eqb]; try done;
    rewrite ?Z.eqb_eq, ?String.eqb_eq, ?Bool.eqb_true_iff;
    try congruence;
    repeat match goal with b : bool |- _ => destruct b end; lia.
Qed.

Lemma dict_lookup_set_eq k v d :
  hashable k = true -> dict_lookup k (dict_set k v d) = Some v.
Proof.
  intros Hk. induction d as [|[k' v'] d IH]; simpl.
  - by rewrite key_eqb_refl.
  - destruct (key_eqb k k') eqn:Hkk; simpl; rewrite Hkk; [done|exact IH].
Qed.

Lemma dict_lookup_set_ne k k2 v2 d :
  key_eqb k k2 = false -> dict_lookup k (dict_set k2 v2 d) = dict_lookup k d.
Proof.
  intros Hne. induction d as [|[k' v'] d IH]; simpl.
  - by rewrite Hne.
  - destruct (key_eqb k2 k') eqn:H2; simpl.
    + destruct (key_eqb k k') eqn:H1; [|done].
      by rewrite (key_eqb_join _ _ _ H1 H2) in Hne.
    + by rewrite IH.
Qed.

Lemma dict_set_entry_ok k v d :
  json_truthy k = true -> hashable k = true -> json_truthy v = true ->
  Forall (fun entry => entry_ok entry = true) d ->
  Forall (fun entry => entry_ok entry = true) (dict_set k v d).
Proof.
  intros Hk Hh Hv. induction 1 as [|[k' v'] d Hhd Htl IH]; simpl.
  - repeat constructor. unfold entry_ok. simpl. by rewrite Hk, Hh, Hv.
  - destruct (key_eqb k k').
    + constructor; [|done]. unfold entry_ok in *. simpl in *.
      apply andb_true_iff in Hhd as [-> _]. by rewrite Hv.
    + by constructor.
Qed.

Lemma load_accounts_app xs ys acc :
  load_accounts (xs ++ ys) acc
  = match load_accounts xs acc with
    | Ok m => load_accounts ys m
    | Raise e => Raise e
    end.
Proof.
  revert acc. induction xs as [|x xs IH]; intros acc; [done|].
  simpl. destruct (json_get x "id" JNull) as [pid|]; [|done]. simpl.
  destruct (json_get x "name" JNull) as [name|]; [|done]. simpl.
  destruct (json_truthy pid && json_truthy name); [|apply IH].
  destruct (hashable pid); [apply IH|done].
Qed.

Lemma load_accounts_readable items acc :
  Forall (fun item => readable_item item = true) items ->
  Forall (fun entry => entry_ok entry = true) acc ->
  exists m, load_accounts items acc = Ok m /\
            Forall (fun entry => entry_ok entry = true) m.
Proof.
  intros Hitems. revert acc.
  induction Hitems as [|item items Hr _ IH]; intros acc Hacc; [by exists acc|].
  destruct item as [| | | | |kvs]; try done. simpl in Hr. simpl.
  destruct (odict_get "id" kvs) as [pid|]; simpl; [|by apply IH].
  destruct (json_truthy pid) eqn:Hp; simpl; [|by apply IH].
  destruct (match odict_get "name" kvs with Some v => v | None => JNull end)
    as [| | | | |] eqn:Hn; simpl;
    repeat match goal with
      | |- context [if ?b then _ else _] =>
          let E := fresh "E" in destruct b eqn:E
      end;
    try (by apply IH); try discriminate;
    apply IH, dict_set_entry_ok; try done.
Qed.

(** A catalog whose items are objects with ids that can be dictionary keys
    never makes the loader raise, and every entry of the map it returns
    has a truthy id and a truthy name: items that lack either are
    skipped. *)
Theorem load_product_map_readable fs rag_path kvs items :
  endswith ".json" (lower rag_path) = true ->
  fs rag_path = Present (Ok (JObj kvs)) ->
  odict_get "accounts" kvs = Some (JArr items) \/
    (odict_get "accounts" kvs = None /\ items = []) ->
  Forall (fun item => readable_item item = true) items ->
  exists m,
    _load_product_map fs rag_path = Ok m /\
    Forall (fun entry => entry_ok entry = true) m.
Proof.
  intros Hend Hfs Hacc Hitems.
  unfold _load_product_map, path_exists, _load_json. rewrite Hend, Hfs. simpl.
  destruct Hacc as [-> | [-> ->]]; simpl.
  - by apply load_accounts_readable.
  - by exists [].
Qed.

Lemma load_product_map_readable_witness :
  exists m,
    _load_product_map
      (fun _ => Present (Ok (JObj [("accounts",
         JArr [JObj [("id", JStr "asaan"); ("name", JStr "Asaan Account")];
               JObj [("name", JStr "No id")];
               JObj [("id", JInt 7); ("name", JStr "")]])])))
      "Bank.JSON" = Ok m /\
    Forall (fun entry => entry_ok entry = true) m.
Proof.
  eapply (load_product_map_readable _ "Bank.JSON");
    [reflexivity | reflexivity | by left | by repeat constructor].
Defined.

Lemma load_accounts_keeps_lookup pid items acc m :
  Forall (fun item => key_eqb pid (item_id item) = false) items ->
  load_accounts items acc = Ok m ->
  dict_lookup pid m = dict_lookup pid acc.
Proof.
  intros Hitems. revert acc.
  induction Hitems as [|item items Hne _ IH]; intros acc; simpl.
  - by intros [= ->].
  - destruct item as [| | | | |kvs]; try done. simpl in Hne. simpl.
    set (pid' := match odict_get "id" kvs with Some v => v | None => JNull end) in *.
    destruct (json_truthy pid' && json_truthy _); [|apply IH].
    destruct (hashable pid'); [|done].
    intros H. rewrite (IH _ H). by apply dict_lookup_set_ne.
Qed.

(** Looking up an id in the loaded map gives the name of the last catalog
    item with that id and a name: a complete item (truthy id and name) that
    is followed by no item with an equal id is found under its id. *)
Theorem load_product_map_lookup fs rag_path kvs before item after pid name m :
  endswith ".json" (lower rag_path) = true ->
  fs rag_path = Present (Ok (JObj kvs)) ->
  odict_get "accounts" kvs = Some (JArr (before ++ JObj item :: after)) ->
  odict_get "id" item = Some pid -> odict_get "name" item = Some name ->
  json_truthy pid = true -> hashable pid = true -> json_truthy name = true ->
  Forall (fun later => key_eqb pid (item_id later) = false) after ->
  _load_product_map fs rag_path = Ok m ->
  dict_lookup pid m = Some name.
Proof.
  intros Hend Hfs Hacc Hid Hname Hp Hh Hn Hafter.
  unfold _load_product_map, path_exists, _load_json. rewrite Hend, Hfs. simpl.
  rewrite Hacc. simpl. rewrite load_accounts_app.
  destruct (load_accounts before []) as [m1|]; [|done].
  simpl. rewrite Hid, Hname. simpl. rewrite Hp, Hn, Hh. simpl.
  intros H. rewrite (load_accounts_keeps_lookup _ _ _ _ Hafter H).
  by apply dict_lookup_set_eq.
Qed.

Lemma load_product_map_lookup_witness :
  dict_lookup (JStr "asaan")
    [(JStr "asaan", JStr "Asaan Account"); (JStr "current", JStr "Current")]
  = Some (JStr "Asaan Account").
Proof.
  apply (load_product_map_lookup
           (fun _ => Present (Ok (JObj [("accounts",
              JArr ([JObj [("id", JStr "asaan"); ("name", JStr "Old name")]] ++
                    JObj [("id", JStr "asaan"); ("name", JStr "Asaan Account")] ::
                    [JObj [("id", JStr "current"); ("name", JStr "Current")]]))])))
           "bank.json"
           [("accounts",
              JArr ([JObj [("id", JStr "asaan"); ("name", JStr "Old name")]] ++
                    JObj [("id", JStr "asaan"); ("name", JStr "Asaan Account")] ::
                    [JObj [("id", JStr "current"); ("name", JStr "Current")]]))]
           [JObj [("id", JStr "asaan"); ("name", JStr "Old name")]]
           [("id", JStr "asaan"); ("name", JStr "Asaan Account")]
           [JObj [("id", JStr "current"); ("name", JStr "Current")]]
           (JStr "asaan") (JStr "Asaan Account"));
    try reflexivity. by repeat constructor.
Defined.

End LoaderMore.

(** ** Start-up *)

Section Startup.

(** [_load_voice_config] returns the document it read, unchanged, exactly
    when the document is an object whose [system_prompt] is an object with a
    truthy [content]; the file it reads is the one named by
    [VOICE_CONFIG_PATH], or [bankislami_voice_config.json]. *)
Theorem load_voice_config_ok_iff fs env data :
  _load_voice_config fs env = Return data <->
  fs (getenv env "VOICE_CONFIG_PATH" "bankislami_voice_config.json")
    = Present (Ok data) /\
  exists kvs section content,
    data = JObj kvs /\
    odict_get "system_prompt" kvs = Some (JObj section) /\
    odict_get "content" section = Some content /\
    json_truthy content = true.
Proof.
  unfold _load_voice_config, _load_json.
  destruct (fs _) as [|[doc|e]]; simpl.
  - split; [done|]. by intros [? _].
  - destruct doc as [| | | | |kvs]; simpl;
      try (split; [done|]; intros [[= <-] (? & ? & ? & ? & _)]; done).
    destruct (odict_get "system_prompt" kvs) as [sp|] eqn:Hsp; simpl.
    + destruct sp as [| | | | |section]; simpl;
        try (split; [done|];
             intros [[= <-] (? & ? & ? & [= <-] & Hs & _)]; congruence).
      destruct (odict_get "content" section) as [c|] eqn:Hc; simpl.
      * destruct (json_truthy c) eqn:Ht; simpl.
        -- split.
           ++ intros [= <-]. split; [done|]. by exists kvs, section, c.
           ++ by intros [[= <-] _].
        -- split; [done|].
           intros [[= <-] (? & ? & ? & [= <-] & Hs & Hc' & Ht')]. congruence.
      * split; [done|].
        intros [[= <-] (? & ? & ? & [= <-] & Hs & Hc' & _)]. congruence.
    + split; [done|].
      intros [[= <-] (? & ? & ? & [= <-] & Hs & _)]. congruence.
  - split; [done|]. by intros [? _].
Qed.

(** How [_load_voice_config] fails: with the error of [open] or
    [json.load] when the file is missing or unreadable (there is no guard as
    for the catalog), with the [RuntimeError] when the document is an object
    without [system_prompt], or whose [system_prompt] is an object without a
    truthy [content], and with an [AttributeError] when [system_prompt] is
    present but is not an object. *)
Theorem load_voice_config_failures fs env :
  let path := getenv env "VOICE_CONFIG_PATH" "bankislami_voice_config.json" in
  let missing := RuntimeError "Missing system_prompt.content in voice config." in
  (fs path = Missing -> _load_voice_config fs env = Throw (Raised OSError)) /\
  (forall e, fs path = Present (Raise e) ->
     _load_voice_config fs env = Throw (Raised e)) /\
  (forall kvs, fs path = Present (Ok (JObj kvs)) ->
     odict_get "system_prompt" kvs = None ->
     _load_voice_config fs env = Throw missing) /\
  (forall kvs section, fs path = Present (Ok (JObj kvs)) ->
     odict_get "system_prompt" kvs = Some (JObj section) ->
     (forall c, odict_get "content" section = Some c -> json_truthy c = false) ->
     _load_voice_config fs env = Throw missing) /\
  (forall kvs sp, fs path = Present (Ok (JObj kvs)) ->
     odict_get "system_prompt" kvs = Some sp ->
     (forall section, sp <> JObj section) ->
     _load_voice_config fs env = Throw (Raised AttributeError)).
Proof.
  intros path missing. subst path.
  unfold _load_voice_config, _load_json. repeat split.
  - by intros ->.
  - by intros e ->.
  - intros kvs -> Hsp. simpl. by rewrite Hsp.
  - intros kvs section -> Hsp Hc. simpl. rewrite Hsp. simpl.
    destruct (odict_get "content" section) as [c|]; simpl; [|done].
    by rewrite (Hc c eq_refl).
  - intros kvs sp -> Hsp Hno. simpl. rewrite Hsp.
    destruct sp; try done. by destruct (Hno kvs0).
Qed.

Lemma load_voice_config_failures_witness :
  _load_voice_config
    (fun _ => Present (Ok (JObj [("system_prompt", JObj [("content", JStr "")])]))) ∅
  = Throw (RuntimeError "Missing system_prompt.content in voice config.") /\
  _load_voice_config
    (fun _ => Present (Ok (JObj [("system_prompt", JStr "You are a bank assistant.")]))) ∅
  = Throw (Raised AttributeError).
Proof.
  split.
  - refine (proj1 (proj2 (proj2 (proj2 (load_voice_config_failures _ ∅))))
              [("system_prompt", JObj [("content", JStr "")])]
              [("content", JStr "")] _ _ _); try reflexivity.
    by intros c [= <-].
  - refine (proj2 (proj2 (proj2 (proj2 (load_voice_config_failures _ ∅))))
              [("system_prompt", JStr "You are a bank assistant.")]
              (JStr "You are a bank assistant.") _ _ _); try reflexivity.
    intros section. discriminate.
Defined.

Lemma load_voice_config_index fs env data :
  _load_voice_config fs env = Return data ->
  exists kvs section content,
    data = JObj kvs /\
    odict_get "system_prompt" kvs = Some (JObj section) /\
    odict_get "content" section = Some content /\
    json_truthy content = true.
Proof.
  unfold _load_voice_config, _load_json.
  destruct (fs _) as [|[doc|e]]; simpl; try done.
  destruct doc as [| | | | |kvs]; simpl; try done.
  destruct (odict_get "system_prompt" kvs) as [sp|] eqn:Hsp; simpl; [|done].
  destruct sp as [| | | | |section]; simpl; try done.
  destruct (odict_get "content" section) as [c|] eqn:Hc; simpl; [|done].
  destruct (json_truthy c) eqn:Ht; simpl; [|done].
  intros [= <-]. by exists kvs, section, c.
Qed.

Lemma load_voice_config_throws fs env e :
  _load_voice_config fs env = Throw e -> forall key, e <> KeyError key.
Proof.
  unfold _load_voice_config.
  repeat match goal with
    | |- context [lift ?r] => destruct r; simpl; try (by intros [= <-])
    end.
  destruct (negb _); by intros [= <-].
Qed.

(** Once [_load_voice_config] has accepted the document, the indexing
    [voice_config["system_prompt"]["content"]] of [create_app] cannot fail:
    start-up never raises a [KeyError], and the system prompt it keeps is
    truthy. *)
Theorem load_app_config_no_key_error fs env :
  (forall key, load_app_config fs env <> Throw (KeyError key)) /\
  (forall cfg, load_app_config fs env = Return cfg ->
     json_truthy (system_prompt cfg) = true).
Proof.
  unfold load_app_config.
  destruct (_load_voice_config fs env) as [data|e] eqn:Hload; simpl.
  - destruct (load_voice_config_index _ _ _ Hload)
      as (kvs & section & c & -> & Hsp & Hc & Ht).
    simpl. rewrite Hsp. simpl. rewrite Hc. simpl.
    split.
    + intros key.
      repeat match goal with
        | |- context [lift ?r] => destruct r; simpl; try done
        end.
    + intros cfg.
      repeat match goal with
        | |- context [lift ?r] => destruct r; simpl; try done
        end.
      by intros [= <-].
  - split; [|done]. intros key [= ->].
    by destruct (load_voice_config_throws _ _ _ Hload key).
Qed.

(** Every part of the configuration but the system prompt is optional: a
    document that holds only the system prompt, with no catalog file, starts
    the application with empty dictionaries. *)
Theorem load_app_config_defaults fs env section content :
  fs (getenv env "VOICE_CONFIG_PATH" "bankislami_voice_config.json")
    = Present (Ok (JObj [("system_prompt", JObj section)])) ->
  odict_get "content" section = Some content ->
  json_truthy content = true ->
  fs (getenv env "RAG_DATA_PATH" "bank.json") = Missing ->
  load_app_config fs env
  = Return {| system_prompt := content;
              intent_keywords := JObj [];
              product_normalization := JObj [];
              fallback_responses := JObj [];
              product_map := [] |}.
Proof.
  intros Hcfg Hc Ht Hrag.
  unfold load_app_config, _load_voice_config, _load_json, _load_product_map,
    path_exists.
  rewrite Hcfg, Hrag. simpl. rewrite Hc. simpl. rewrite Ht. simpl.
  rewrite Hc. simpl. by rewrite orb_true_r.
Qed.

Lemma load_app_config_defaults_witness :
  load_app_config
    (fun path =>
       if String.eqb path "voice.json"
       then Present (Ok (JObj [("system_prompt",
                                JObj [("content", JStr "You are a bank assistant.")])]))
       else Missing)
    {["VOICE_CONFIG_PATH" := "voice.json"]}
  = Return {| system_prompt := JStr "You are a bank assistant.";
              intent_keywords := JObj [];
              product_normalization := JObj [];
              fallback_responses := JObj [];
              product_map := [] |}.
Proof.
  apply (load_app_config_defaults _ {["VOICE_CONFIG_PATH" := "voice.json"]}
           [("content", JStr "You are a bank assistant.")]); reflexivity.
Defined.

End Startup.

(** ** The answer pipeline *)

Section GetAnswer.

Context {Store : Type}.
Implicit Types ext : collaborators Store.
Implicit Types fallbacks product_map : gmap string string.
Implicit Types intent_keywords groups : odict (list string).

Lemma fallback_response_truthy text product_name intent fallbacks :
  truthy (_fallback_response text product_name intent fallbacks) = true.
Proof.
  unfold _fallback_response.
  repeat match goal with |- context [if ?b then _ else _] => destruct b end;
    repeat apply or_else_truthy; reflexivity.
Qed.

Lemma greeting_stripped g : g ∈ greetings -> strip g = g.
Proof.
  unfold greetings. intros H.
  repeat (apply elem_of_cons in H as [->|H]; [done|]).
  by apply elem_of_nil in H.
Qed.

(** A greeting word, in any letter casing and with any whitespace around
    it, is answered with the fixed greeting, whatever the configuration,
    the store and the collaborators. *)
Theorem get_answer_greeting ext system_prompt intent_keywords groups fallbacks
    product_map rag_store l word r :
  all_space l = true -> all_space r = true -> lower word ∈ greetings ->
  get_answer ext system_prompt intent_keywords groups fallbacks product_map
    rag_store (l +:+ word +:+ r)
  = Return "Assalam-o-Alaikum. Welcome to Bank Islami. Mai aap ki madad ke liye hoon.".
Proof.
  intros Hl Hr Hg. unfold get_answer.
  rewrite strip_pad by done.
  rewrite lower_strip, (greeting_stripped _ Hg).
  by rewrite bool_decide_eq_true_2.
Qed.

(** For a well-typed configuration (keywords and variants that are lists of
    strings, templates and catalog names that are strings): when there is
    no store, or the store returns no context, the pipeline never fails and
    never returns an empty reply, and the answer generator is not
    consulted: the reply is the greeting or a fallback. *)
Theorem get_answer_without_context ext (cfg : app_config) system_prompt
    keywords groups templates names rag_store user_text :
  typed_odict (App.intent_keywords cfg) = Some keywords ->
  typed_odict (App.product_normalization cfg) = Some groups ->
  typed_templates (App.fallback_responses cfg) = Some templates ->
  typed_catalog (App.product_map cfg) = Some names ->
  match rag_store with
  | Some store => forall query, build_rag_context ext query store = ""
  | None => True
  end ->
  exists reply,
    reply <> "" /\
    forall generate,
      get_answer {| build_rag_context := build_rag_context ext;
                    generate_text := generate;
                    format_response := format_response ext |}
        system_prompt keywords groups templates names rag_store user_text
      = Return reply.
Proof.
  intros _ _ _ _ Hctx. unfold get_answer.
  destruct (bool_decide _).
  { exists greeting_reply. by split. }
  destruct (_normalize_transcript user_text groups names) as [t pn].
  eexists. split; [|intros generate].
  2: { cbn [build_rag_context].
       destruct rag_store as [store|]; [rewrite Hctx|]; reflexivity. }
  apply truthy_true, fallback_response_truthy.
Qed.

(** Without a store the reply does not depend on the letter case of the
    utterance. *)
Theorem get_answer_case_insensitive ext system_prompt intent_keywords groups
    fallbacks product_map x x' :
  lower x = lower x' ->
  get_answer ext system_prompt intent_keywords groups fallbacks product_map None x
  = get_answer ext system_prompt intent_keywords groups fallbacks product_map None x'.
Proof.
  intros H. unfold get_answer.
  rewrite !lower_strip, H, !normalize_transcript_normalize.
  by rewrite (normalize_casing x x' H).
Qed.

(** A blank utterance (empty or whitespace only) resolves no product and no
    intent when no configured variant or keyword is empty; the store, when
    there is one, is asked for the generic expansion terms only, and without
    context the reply is the handoff template or the default. *)
Theorem get_answer_blank ext system_prompt intent_keywords groups fallbacks
    product_map rag_store x :
  all_space x = true ->
  Forall (fun entry => Forall (fun k => k <> "") (snd entry)) groups ->
  Forall (fun entry => Forall (fun k => k <> "") (snd entry)) intent_keywords ->
  _normalize_transcript x groups product_map = ("", None) /\
  get_answer ext system_prompt intent_keywords groups fallbacks product_map
    rag_store x
  = let rag_context :=
      match rag_store with
      | Some store =>
          build_rag_context ext "features eligibility documents process" store
      | None => ""
      end in
    if negb (truthy rag_context) then
      Return (or_else (fallbacks !! "handoff") "Mazrat, main samajh nahi saka.")
    else
      try! text := generate_text ext x system_prompt rag_context in
      Return (format_response ext text).
Proof.
  intros Hx Hg Hk.
  destruct (blank_facts x groups intent_keywords product_map fallbacks Hx Hg Hk)
    as (Hn & Hd & Hq & Hf).
  split; [exact Hn|].
  unfold get_answer.
  assert (Hs : lower (strip x) = "").
  { unfold strip. by rewrite (lstrip_space_only x Hx). }
  rewrite Hs, Hn. rewrite bool_decide_eq_false_2.
  - by rewrite Hd, Hq, Hf.
  - unfold greetings. intros H.
    repeat (apply elem_of_cons in H as [H|H]; [discriminate|]).
    by apply elem_of_nil in H.
Qed.

End GetAnswer.

Lemma get_answer_greeting_witness :
  get_answer
    {| build_rag_context := fun (_ : string) (_ : unit) => "context";
       generate_text := fun _ _ _ => Throw (Raised OSError);
       format_response := fun s => s |}
    "prompt" [] [("salam_account", ["assalamualaikum"])] ∅ ∅ (Some tt)
    ("  " +:+ "Assalamualaikum" +:+ "  ")
  = Return "Assalam-o-Alaikum. Welcome to Bank Islami. Mai aap ki madad ke liye hoon.".
Proof.
  apply get_answer_greeting; [reflexivity|reflexivity|].
  do 4 right. left.
Defined.

Lemma get_answer_without_context_witness :
  exists reply,
    reply <> "" /\
    forall generate,
      get_answer {| build_rag_context := fun (_ : string) (_ : unit) => "";
                    generate_text := generate;
                    format_response := fun s => s |}
        "prompt" [("loan", ["loan"; "finance"])] [("asaan_account", ["asaan"])]
        (<["handoff" := "Please hold."]> ∅)
        (<["asaan_account" := "Asaan Account"]> ∅) (Some tt) "I need a loan"
      = Return reply.
Proof.
  apply (get_answer_without_context
           {| build_rag_context := fun (_ : string) (_ : unit) => "";
              generate_text := fun _ _ _ => Throw (Raised OSError);
              format_response := fun s => s |}
           {| App.system_prompt := JStr "prompt";
              App.intent_keywords := JObj [("loan", JArr [JStr "loan"; JStr "finance"])];
              App.product_normalization := JObj [("asaan_account", JArr [JStr "asaan"])];
              App.fallback_responses := JObj [("handoff", JStr "Please hold.")];
              App.product_map := [(JStr "asaan_account", JStr "Asaan Account");
                                  (JInt 7, JInt 5)] |}
           "prompt" [("loan", ["loan"; "finance"])] [("asaan_account", ["asaan"])]
           (<["handoff" := "Please hold."]> ∅)
           (<["asaan_account" := "Asaan Account"]> ∅) (Some tt) "I need a loan");
    reflexivity.
Defined.

(** A catalog name that is not a string, which [_load_product_map] accepts,
    is not a well-typed configuration. *)
Example typed_catalog_number :
  _load_product_map
    (fun _ => Present (Ok (JObj [("accounts",
       JArr [JObj [("id", JStr "asaan_account"); ("name", JInt 5)]])])))
    "bank.json"
  = Ok [(JStr "asaan_account", JInt 5)] /\
  typed_catalog [(JStr "asaan_account", JInt 5)] = None.
Proof. split; reflexivity. Qed.

Lemma get_answer_case_insensitive_witness :
  get_answer
    {| build_rag_context := fun (_ : string) (_ : unit) => "context";
       generate_text := fun _ _ _ => Throw (Raised OSError);
       format_response := fun s => s |}
    "prompt" [] [] {["handoff" := "Please hold."]} ∅ None "OPEN an Account"
  = get_answer
      {| build_rag_context := fun (_ : string) (_ : unit) => "context";
         generate_text := fun _ _ _ => Throw (Raised OSError);
         format_response := fun s => s |}
      "prompt" [] [] {["handoff" := "Please hold."]} ∅ None "open an account".
Proof. by apply get_answer_case_insensitive. Defined.

Lemma get_answer_blank_witness :
  get_answer
    {| build_rag_context := fun (_ : string) (_ : unit) => "context";
       generate_text := fun _ _ _ => Throw (Raised OSError);
       format_response := fun s => s |}
    "prompt" [("loan", ["loan"])] [("asaan_account", ["asaan"])]
    {["handoff" := "Please hold."]} ∅ None "   "
  = Return "Please hold.".
Proof.
  refine (proj2 (get_answer_blank _ "prompt" [("loan", ["loan"])]
                   [("asaan_account", ["asaan"])] {["handoff" := "Please hold."]}
                   ∅ None "   " _ _ _));
    [reflexivity| |]; by repeat constructor.
Defined.

(** ** Webhook verification *)

Section Webhook.

(** The webhook challenge is echoed, with status 200, only to a request in
    mode [subscribe] that presents the configured token and a non-empty
    challenge; every other request gets 403.  With [VERIFY_TOKEN] unset the
    configured token is the empty string. *)
Theorem webhook_verify_token env hub_mode hub_verify_token hub_challenge :
  let response := webhook_verify env hub_mode hub_verify_token hub_challenge in
  let configured := match env !! "VERIFY_TOKEN" with Some v => v | None => "" end in
  (response = (403, "Forbidden", "text/plain") \/
   exists challenge,
     response = (200, challenge, "text/plain") /\ challenge <> "" /\
     hub_challenge = Some challenge /\ hub_mode = Some "subscribe" /\
     hub_verify_token = Some configured) /\
  (hub_verify_token <> Some configured ->
   response = (403, "Forbidden", "text/plain")).
Proof.
  intros response configured. subst response. unfold webhook_verify.
  fold configured. change (getenv env "VERIFY_TOKEN" "") with configured.
  destruct (bool_decide (hub_mode = Some "subscribe")) eqn:Hm; simpl;
    [|split; [by left|done]].
  destruct (bool_decide (hub_verify_token = Some configured)) eqn:Ht; simpl.
  - apply bool_decide_eq_true in Hm, Ht.
    destruct hub_challenge as [[|c s]|]; simpl; split; try (by left); try done.
    right. exists (String c s). by repeat split.
  - split; [by left|done].
Qed.

Lemma webhook_verify_token_witness :
  webhook_verify {["VERIFY_TOKEN" := "s3cret"]} (Some "subscribe") (Some "guess")
    (Some "1158201444")
  = (403, "Forbidden", "text/plain").
Proof.
  refine (proj2 (webhook_verify_token {["VERIFY_TOKEN" := "s3cret"]}
                   (Some "subscribe") (Some "guess") (Some "1158201444")) _).
  discriminate.
Defined.

End Webhook.
